(** * Etcher multi-device flashing: the CLI orchestrator and the IPC child writer

    A shallow embedding of [lib/cli/etcher.js] (the same-process CLI driver)
    and of the IPC child-writer worker, with the properties of the design
    document stated over the embedded handlers.

    Conventions of the embedding.
    - A JavaScript [Map] is an association list in insertion order: [set] on
      a present key updates the value in place, [delete] removes the entry,
      [forEach] visits entries from the oldest to the newest.
    - A JavaScript number is an exact rational or one of [NaN], [+Infinity],
      [-Infinity]; the rounding of IEEE doubles and the sign of zero are not
      modelled.
    - Event listeners run to completion one after the other (a single
      threaded reactor), so a run is a list of events folded over the state
      captured by the closures. *)

From Stdlib Require Import String ZArith QArith Bool Lia Lqa.
From Stdlib Require Import List Permutation.
Import ListNotations.
Open Scope string_scope.
Open Scope list_scope.
Open Scope nat_scope.

Set Implicit Arguments.

(* ------------------------------------------------------------------ *)
(** ** JavaScript numbers *)

Module JsNum.
Local Open Scope Q_scope.

Inductive t : Type :=
| Fin (q : Q)
| PInf
| NInf
| NaN.

Definition zero : t := Fin 0.

Definition of_nat (n : nat) : t := Fin (inject_Z (Z.of_nat n)).

(** [a + b], exact on rationals: the rounding of a double sum and its
    overflow to an infinity are not modelled. *)
Definition add (a b : t) : t :=
  match a, b with
  | NaN, _ | _, NaN => NaN
  | Fin x, Fin y => Fin (x + y)
  | PInf, NInf | NInf, PInf => NaN
  | PInf, _ | _, PInf => PInf
  | NInf, _ | _, NInf => NInf
  end.

(** [a / b]; a zero divisor yields [NaN] or an infinity, never a fault.
    The quotient of two rationals is exact: the rounding of a double
    quotient is not modelled. *)
Definition div (a b : t) : t :=
  match a, b with
  | NaN, _ | _, NaN => NaN
  | Fin x, Fin y =>
      match y ?= 0 with
      | Eq => match x ?= 0 with
              | Eq => NaN
              | Gt => PInf
              | Lt => NInf
              end
      | _ => Fin (x / y)
      end
  | Fin _, _ => Fin 0
  | PInf, Fin y => match y ?= 0 with Lt => NInf | _ => PInf end
  | NInf, Fin y => match y ?= 0 with Lt => PInf | _ => NInf end
  | _, _ => NaN
  end.

(** Same number (rationals up to [Qeq]). *)
Definition eq (a b : t) : Prop :=
  match a, b with
  | Fin x, Fin y => x == y
  | PInf, PInf | NInf, NInf | NaN, NaN => True
  | _, _ => False
  end.

(** [lo <= a <= hi] for a finite [a]; false on [NaN] and the infinities. *)
Definition between (lo hi : Q) (a : t) : Prop :=
  match a with Fin x => lo <= x /\ x <= hi | _ => False end.

Definition nonneg (a : t) : Prop :=
  match a with Fin x => 0 <= x | _ => False end.

(** The sum of a list of numbers, [a1 + (a2 + (... + 0))]. *)
Definition sum (l : list t) : t := fold_right add zero l.

(** The arithmetic mean of a list of numbers. *)
Definition mean (l : list t) : t := div (sum l) (of_nat (length l)).

End JsNum.

Infix "=j=" := JsNum.eq (at level 70, no associativity).

(* ------------------------------------------------------------------ *)
(** ** JavaScript [Map] with string keys *)

Module JsMap.
Section WithValue.
Variable V : Type.

Definition t := list (string * V).

Definition empty : t := [].

(** [m.set(k, v)] *)
Fixpoint set (k : string) (v : V) (m : t) : t :=
  match m with
  | [] => [(k, v)]
  | (k', v') :: m' =>
      if String.eqb k k' then (k, v) :: m' else (k', v') :: set k v m'
  end.

(** [m.delete(k)] *)
Fixpoint delete (k : string) (m : t) : t :=
  match m with
  | [] => []
  | (k', v') :: m' =>
      if String.eqb k k' then delete k m' else (k', v') :: delete k m'
  end.

(** [m.size] *)
Definition size (m : t) : nat := length m.

(** [m.has(k)] *)
Definition has (k : string) (m : t) : bool :=
  existsb (fun kv => String.eqb k (fst kv)) m.

Definition keys (m : t) : list string := map fst m.

Definition values (m : t) : list V := map snd m.

(** [m.forEach(f)], with the variables [f] assigns threaded as [acc]. *)
Definition forEach (A : Type) (f : A -> V -> A) (m : t) (acc : A) : A :=
  fold_left (fun a kv => f a (snd kv)) m acc.

End WithValue.
End JsMap.

(* ------------------------------------------------------------------ *)
(** ** Values exchanged with the collaborators *)

(** A JavaScript [Error]: its message and, when set, its [code]. *)
Module JsError.
Record t := make { message : string; code : option string }.
End JsError.

(** The state object of a writer's [progress] event. *)
Module State.
Record t := make {
  device : string;
  type : string;
  delta : JsNum.t;
  transferred : JsNum.t;
  percentage : JsNum.t;
  remaining : JsNum.t;
  runtime : JsNum.t;
  speed : JsNum.t;
  eta : JsNum.t
}.


(** A percentage within [[0, 100]], a speed and an eta that are not
    negative. *)
Definition inRange (s : t) : Prop :=
  JsNum.between 0 100 (percentage s) /\ JsNum.nonneg (speed s) /\
  JsNum.nonneg (eta s).
End State.

(** The combined [progress] object of the CLI. *)
Module Progress.
Record t := make {
  type : string;
  delta : JsNum.t;
  transferred : JsNum.t;
  percentage : JsNum.t;
  remaining : JsNum.t;
  runtime : JsNum.t;
  speed : JsNum.t;
  eta : JsNum.t
}.

(** Same phase, same numbers. *)
Definition equiv (p q : t) : Prop :=
  type p = type q /\ delta p =j= delta q /\
  transferred p =j= transferred q /\ percentage p =j= percentage q /\
  remaining p =j= remaining q /\ runtime p =j= runtime q /\
  speed p =j= speed q /\ eta p =j= eta q.
End Progress.

(** The options object handed to [new ImageWriter(...)]. *)
Module WriterOptions.
Record t := make {
  path : string;
  imagePath : string;
  verify : bool;
  unmountOnSuccess : bool;
  checksumAlgorithms : list string
}.
End WriterOptions.

(** Modelled from the spec: the [ImageWriter] class ([lib/sdk/writer]) is not
    part of the sources at hand.  Per the writer contract it is constructed
    with the options object and is an event emitter; the instance is taken to
    keep that object as [options], which is what the CLI listeners read
    through their receiver. *)
Module ImageWriter.
Record t := make { options : WriterOptions.t }.
End ImageWriter.

(** Modelled from the spec: [lib/shared/exit-codes] is not part of the
    sources at hand; the table is a parameter of the development. *)
Module ExitCodes.
Record t := make {
  SUCCESS : Z;
  GENERAL_ERROR : Z;
  VALIDATION_ERROR : Z
}.

(** The table of the upstream project, used for the concrete runs. *)
Definition upstream : t :=
  {| SUCCESS := 0; GENERAL_ERROR := 1; VALIDATION_ERROR := 2 |}.
End ExitCodes.

(** Whether a run whose terminal events are those of the devices [ts]
    retires a set of [n] active writers. *)
Definition completes (n : nat) (ts : list string) : bool :=
  negb (length ts =? 0) && (length ts =? n).

(* ------------------------------------------------------------------ *)
(** ** The CLI driver, [lib/cli/etcher.js] *)

Module Cli.

Record Checksum := { crc32 : string }.

(** The state object of a writer's [finish] event. *)
Record FlashState := { checksum : Checksum }.

(** An element of [results]: [{ device, error }] or [{ device, flash }]. *)
Inductive Result :=
| ResultError (device : string) (error : JsError.t)
| ResultFlash (device : string) (flash : FlashState).

Definition device (r : Result) : string :=
  match r with
  | ResultError d _ => d
  | ResultFlash d _ => d
  end.

(** The variables captured by the listeners inside [new Bluebird(...)].
    [progressBars] logs every [progressBars[type].update(progress)] call
    with the bar it went to; [resolveCalls] logs every [resolve(results)]
    call with the content of [results] at that time (the promise settles on
    the first one, with the array itself). *)
Record Closure := {
  results : list Result;
  writers : JsMap.t ImageWriter.t;
  states : JsMap.t State.t;
  progress : Progress.t;
  progressBars : list (string * Progress.t);
  resolveCalls : list (list Result)
}.

(** What a writer emits.  [onError] and [onFinish] are [function]
    listeners, so they receive the emitting writer as [this]; [onProgress]
    is an arrow function and sees only the state object. *)
Inductive Event :=
| EvProgress (state : State.t)
| EvError (this : ImageWriter.t) (error : JsError.t)
| EvFinish (this : ImageWriter.t) (state : FlashState).

Definition resetProgress (p : Progress.t) : Progress.t :=
  {| Progress.type := Progress.type p;
     Progress.delta := JsNum.zero;
     Progress.transferred := JsNum.zero;
     Progress.percentage := JsNum.zero;
     Progress.remaining := JsNum.zero;
     Progress.runtime := JsNum.zero;
     Progress.speed := JsNum.zero;
     Progress.eta := JsNum.zero |}.

(** The body of [states.forEach((flash) => ...)]: the assigned variables
    are [writing] and [progress]. *)
Definition sumState (acc : nat * Progress.t) (flash : State.t)
  : nat * Progress.t :=
  let (writing, p) := acc in
  (writing + (if String.eqb (State.type flash) "write" then 1 else 0),
   {| Progress.type := Progress.type p;
      Progress.delta := JsNum.add (Progress.delta p) (State.delta flash);
      Progress.transferred :=
        JsNum.add (Progress.transferred p) (State.transferred flash);
      Progress.percentage :=
        JsNum.add (Progress.percentage p) (State.percentage flash);
      Progress.remaining :=
        JsNum.add (Progress.remaining p) (State.remaining flash);
      Progress.runtime :=
        JsNum.add (Progress.runtime p) (State.runtime flash);
      Progress.speed := JsNum.add (Progress.speed p) (State.speed flash);
      Progress.eta := JsNum.add (Progress.eta p) (State.eta flash) |}).

(** The statements under [// Average state]. *)
Definition average (writing length : nat) (p : Progress.t) : Progress.t :=
  let n := JsNum.of_nat length in
  {| Progress.type := if 0 <? writing then "write" else "check";
     Progress.delta := JsNum.div (Progress.delta p) n;
     Progress.transferred := JsNum.div (Progress.transferred p) n;
     Progress.percentage := JsNum.div (Progress.percentage p) n;
     Progress.remaining := JsNum.div (Progress.remaining p) n;
     Progress.runtime := JsNum.div (Progress.runtime p) n;
     Progress.speed := JsNum.div (Progress.speed p) n;
     Progress.eta := JsNum.div (Progress.eta p) n |}.

(** The recomputation of [progress] from a given [states] map. *)
Definition aggregate (states : JsMap.t State.t) (p : Progress.t)
  : Progress.t :=
  let length := JsMap.size states in
  let (writing, p) := JsMap.forEach sumState states (0, resetProgress p) in
  average writing length p.

Definition onProgress (c : Closure) (state : State.t) : Closure :=
  let states := JsMap.set (State.device state) state (states c) in
  let progress := aggregate states (progress c) in
  {| results := results c;
     writers := writers c;
     states := states;
     progress := progress;
     progressBars :=
       progressBars c ++ [(Progress.type progress, progress)];
     resolveCalls := resolveCalls c |}.

(** The common tail of [onError] and [onFinish], after the push. *)
Definition settle (c : Closure) (results : list Result) (path : string)
  : Closure :=
  let writers := JsMap.delete path (writers c) in
  let states := JsMap.delete path (states c) in
  {| results := results;
     writers := writers;
     states := states;
     progress := progress c;
     progressBars := progressBars c;
     resolveCalls :=
       if JsMap.size writers =? 0
       then resolveCalls c ++ [results]
       else resolveCalls c |}.

Definition onError (c : Closure) (this : ImageWriter.t) (error : JsError.t)
  : Closure :=
  let path := WriterOptions.path (ImageWriter.options this) in
  settle c (results c ++ [ResultError path error]) path.

Definition onFinish (c : Closure) (this : ImageWriter.t) (state : FlashState)
  : Closure :=
  let path := WriterOptions.path (ImageWriter.options this) in
  settle c (results c ++ [ResultFlash path state]) path.

(** The writer built for one drive by [answers.drive.forEach]. *)
Definition newWriter (imagePath : string) (check unmount : bool)
    (drive : string) : ImageWriter.t :=
  ImageWriter.make
    {| WriterOptions.path := drive;
       WriterOptions.imagePath := imagePath;
       WriterOptions.verify := check;
       WriterOptions.unmountOnSuccess := unmount;
       WriterOptions.checksumAlgorithms := ["crc32"] |}.

(** The closure once [answers.drive.forEach] has registered every writer. *)
Definition start (imagePath : string) (check unmount : bool)
    (drives : list string) : Closure :=
  {| results := [];
     writers :=
       fold_left
         (fun ws drive =>
            JsMap.set drive (newWriter imagePath check unmount drive) ws)
         drives (JsMap.empty ImageWriter.t);
     states := JsMap.empty State.t;
     progress :=
       {| Progress.type := "write";
          Progress.delta := JsNum.zero;
          Progress.transferred := JsNum.zero;
          Progress.percentage := JsNum.zero;
          Progress.remaining := JsNum.zero;
          Progress.runtime := JsNum.zero;
          Progress.speed := JsNum.zero;
          Progress.eta := JsNum.zero |};
     progressBars := [];
     resolveCalls := [] |}.


(** [result.error] is set. *)
Definition isError (r : Result) : bool :=
  match r with
  | ResultError _ _ => true
  | ResultFlash _ _ => false
  end.

(** One listener invocation. *)
Definition step (c : Closure) (e : Event) : Closure :=
  match e with
  | EvProgress state => onProgress c state
  | EvError this error => onError c this error
  | EvFinish this state => onFinish c this state
  end.

(** The listeners run over a sequence of events. *)
Definition run (c : Closure) (tr : list Event) : Closure :=
  fold_left step tr c.

(** The devices of the terminal events of a run, in order of delivery. *)
Fixpoint terminals (tr : list Event) : list string :=
  match tr with
  | [] => []
  | EvProgress _ :: tr' => terminals tr'
  | EvError this _ :: tr' =>
      WriterOptions.path (ImageWriter.options this) :: terminals tr'
  | EvFinish this _ :: tr' =>
      WriterOptions.path (ImageWriter.options this) :: terminals tr'
  end.

(** The writers' ordering discipline: no [progress] of a device once one
    of its terminal events is in [seen] or earlier in the run. *)
Fixpoint ordered (seen : list string) (tr : list Event) : bool :=
  match tr with
  | [] => true
  | EvProgress state :: tr' =>
      negb (existsb (String.eqb (State.device state)) seen)
      && ordered seen tr'
  | EvError this _ :: tr' =>
      ordered (WriterOptions.path (ImageWriter.options this) :: seen) tr'
  | EvFinish this _ :: tr' =>
      ordered (WriterOptions.path (ImageWriter.options this) :: seen) tr'
  end.

Section ExitCode.
Variable EXIT_CODES : ExitCodes.t.

(** The [.then((results) => ...)] continuation: the lines printed and
    the code given to [process.exit]. *)
Definition report (results : list Result) : list string * Z :=
  fold_left
    (fun (acc : list string * Z) result =>
       let (lines, exitCode) := acc in
       match result with
       | ResultError device error =>
           (lines ++ [("  - " ++ device ++ ": "
                       ++ JsError.message error)%string],
            ExitCodes.GENERAL_ERROR EXIT_CODES)
       | ResultFlash device flash =>
           (lines ++ [("  - " ++ device ++ ": "
                       ++ crc32 (checksum flash))%string],
            exitCode)
       end)
    results (["Checksums:"], ExitCodes.SUCCESS EXIT_CODES).

(** The [.catch((error) => ...)] continuation. *)
Definition rejected (error : JsError.t) : Z :=
  match JsError.code error with
  | Some c =>
      if String.eqb c "EVALIDATION"
      then ExitCodes.VALIDATION_ERROR EXIT_CODES
      else ExitCodes.GENERAL_ERROR EXIT_CODES
  | None => ExitCodes.GENERAL_ERROR EXIT_CODES
  end.

(** How the promise chain ends. *)
Inductive Outcome :=
| Resolved (results : list Result)
| Rejected (error : JsError.t).

Definition exitCode (o : Outcome) : Z :=
  match o with
  | Resolved results => snd (report results)
  | Rejected error => rejected error
  end.
End ExitCode.

(** The entries the terminal events of a run push to [results], in order
    of delivery. *)
Fixpoint entries (tr : list Event) : list Result :=
  match tr with
  | [] => []
  | EvProgress _ :: tr' => entries tr'
  | EvError this error :: tr' =>
      ResultError (WriterOptions.path (ImageWriter.options this)) error
      :: entries tr'
  | EvFinish this state :: tr' =>
      ResultFlash (WriterOptions.path (ImageWriter.options this)) state
      :: entries tr'
  end.

Definition isErrorEvent (e : Event) : bool :=
  match e with
  | EvError _ _ => true
  | _ => false
  end.

(** The devices of the [progress] events of a run, in order of delivery. *)
Fixpoint progressDevices (tr : list Event) : list string :=
  match tr with
  | [] => []
  | EvProgress state :: tr' => State.device state :: progressDevices tr'
  | _ :: tr' => progressDevices tr'
  end.

(** The line [console.log] prints for one result. *)
Definition line (r : Result) : string :=
  match r with
  | ResultError device error =>
      ("  - " ++ device ++ ": " ++ JsError.message error)%string
  | ResultFlash device flash =>
      ("  - " ++ device ++ ": " ++ crc32 (checksum flash))%string
  end.

(** The numeric fields [onProgress] sums and averages: the name, the field
    of a writer's state and the field of [progress]. *)
Definition fields
  : list (string * (State.t -> JsNum.t) * (Progress.t -> JsNum.t)) :=
  [("delta", State.delta, Progress.delta);
   ("transferred", State.transferred, Progress.transferred);
   ("percentage", State.percentage, Progress.percentage);
   ("remaining", State.remaining, Progress.remaining);
   ("runtime", State.runtime, Progress.runtime);
   ("speed", State.speed, Progress.speed);
   ("eta", State.eta, Progress.eta)].

(** A snapshot as it is handed to a progress bar: the bar is the one of
    the snapshot's type, and there is such a bar. *)
Definition barOfItsType (b : string * Progress.t) : Prop :=
  fst b = Progress.type (snd b) /\ (fst b = "write" \/ fst b = "check").

End Cli.

(* ------------------------------------------------------------------ *)
(** ** The IPC child writer *)

Module ChildWriter.

Record Drive := { device : string }.

(** The result object of a writer's [finish] event. *)
Record FlashResult := {
  drive : Drive;
  checksum : list (string * string)
}.

(** [result.drive.device] *)
Definition resultDevice (r : FlashResult) : string := device (drive r).

(** The [write] command of the controller. *)
Record WriteOptions := {
  imagePath : string;
  destinations : list string;
  unmountOnSuccess : bool;
  validateWriteOnSuccess : bool;
  checksumAlgorithms : list string
}.

(** The few JavaScript values the handlers look into. *)
#[local] Unset Elimination Schemes.
Inductive JsValue :=
| JsUndefined
| JsString (s : string)
| JsObject (props : list (string * JsValue)).
#[local] Set Elimination Schemes.

(** What goes to the controller through [ipc.of[IPC_SERVER_ID].emit]. *)
Inductive Message :=
| Ready
| Log (message : string)
| StateMsg (state : State.t)
| ErrorMsg (error : JsError.t) (device : JsValue)
| Done (results : list FlashResult).

(** The variables of the [write] listener's closure, what has been sent to
    the controller, and the code [terminate] has scheduled the exit with
    ([None] while the worker runs). *)
Record Worker := {
  exitCode : Z;
  writers : JsMap.t ImageWriter.t;
  results : list FlashResult;
  emitted : list Message;
  exited : option Z
}.

(** *** Statements: a state and exception monad over [Worker] *)

Inductive Completion (A : Type) :=
| Normal (a : A)
| Throw (e : JsError.t).
Arguments Normal {A} a.
Arguments Throw {A} e.

Definition M (A : Type) := Worker -> Worker * Completion A.

Definition ret {A} (a : A) : M A := fun w => (w, Normal a).

Definition throw {A} (e : JsError.t) : M A := fun w => (w, Throw e).

Definition bind {A B} (m : M A) (k : A -> M B) : M B :=
  fun w =>
    match m w with
    | (w', Normal a) => k a w'
    | (w', Throw e) => (w', Throw e)
    end.

Declare Scope js_scope.
Delimit Scope js_scope with js.
Notation "x <- m ;; k" := (bind m (fun x => k))
  (at level 61, m at next level, right associativity) : js_scope.
Notation "m ;; k" := (bind m (fun _ => k))
  (at level 61, right associativity) : js_scope.
Local Open Scope js_scope.

Definition get : M Worker := fun w => (w, Normal w).

Definition modify (f : Worker -> Worker) : M unit :=
  fun w => (f w, Normal tt).

Definition TypeError (message : string) : JsError.t :=
  JsError.make message None.

(** [v[p]] *)
Definition getProp (v : JsValue) (p : string) : M JsValue :=
  match v with
  | JsUndefined =>
      throw (TypeError
               ("Cannot read property '" ++ p ++ "' of undefined")%string)
  | JsString _ => ret JsUndefined
  | JsObject props =>
      ret (match find (fun kv => String.eqb p (fst kv)) props with
           | Some kv => snd kv
           | None => JsUndefined
           end)
  end.

(** The [this] of the module: [module.exports], to which the file assigns
    nothing.  Arrow functions take their [this] from where they are
    written, and every function of the file is an arrow function. *)
Definition this : JsValue := JsObject [].

Definition emit (m : Message) : M unit :=
  modify (fun w =>
    {| exitCode := exitCode w;
       writers := writers w;
       results := results w;
       emitted := emitted w ++ [m];
       exited := exited w |}).

Definition log (message : string) : M unit := emit (Log message).

(** Modelled from the spec: [errors.toJSON] ([lib/shared/errors]) is not
    part of the sources at hand.  The worker-to-controller [error] payload
    carries the fields of the error; the plain object made of an error is
    taken to carry exactly those, and no device. *)
Definition toJSON (error : JsError.t) : JsError.t := error.

Section WithExitCodes.
Variable EXIT_CODES : ExitCodes.t.

(** [code || EXIT_CODES.SUCCESS] *)
Definition orSuccess (code : Z) : Z :=
  if (code =? 0)%Z then ExitCodes.SUCCESS EXIT_CODES else code.

(** [terminate(code)]: disconnect and exit on the next tick with
    [code || EXIT_CODES.SUCCESS]; the first scheduled exit is the one
    that happens. *)
Definition terminate (code : Z) : M unit :=
  modify (fun w =>
    {| exitCode := exitCode w;
       writers := writers w;
       results := results w;
       emitted := emitted w;
       exited :=
         match exited w with
         | Some c => Some c
         | None =>
             Some (orSuccess code)
         end |}).

(** [handleError(error)], the [uncaughtException] listener. *)
Definition handleError (error : JsError.t) : M unit :=
  emit (ErrorMsg (toJSON error) JsUndefined) ;;
  terminate (ExitCodes.GENERAL_ERROR EXIT_CODES).

Definition onProgress (state : State.t) : M unit :=
  emit (StateMsg state).

Definition onFinish (result : option FlashResult) : M unit :=
  d <- match result with
       | Some r => ret (device (drive r))
       | None =>
           _ <- getProp JsUndefined "drive" ;; ret EmptyString
       end ;;
  log ("Finish: " ++ d)%string ;;
  match result with
  | Some r =>
      modify (fun w =>
        {| exitCode := exitCode w;
           writers := JsMap.delete (device (drive r)) (writers w);
           results := results w ++ [r];
           emitted := emitted w;
           exited := exited w |})
  | None => ret tt
  end ;;
  w <- get ;;
  if JsMap.size (writers w) =? 0
  then emit (Done (results w)) ;; terminate (exitCode w)
  else ret tt.

Definition onError (error : JsError.t) : M unit :=
  log (JsError.message error) ;;
  modify (fun w =>
    {| exitCode := ExitCodes.GENERAL_ERROR EXIT_CODES;
       writers := writers w;
       results := results w;
       emitted := emitted w;
       exited := exited w |}) ;;
  destinationDevice <- getProp this "destinationDevice" ;;
  dev <- getProp destinationDevice "device" ;;
  emit (ErrorMsg error dev) ;;
  onFinish None.

Definition boolString (b : bool) : string :=
  if b then "true" else "false".

(** The [write] listener, up to the point where every writer has been
    created, registered and started. *)
Definition onWrite (options : WriteOptions) : M unit :=
  log ("Image: " ++ imagePath options)%string ;;
  log ("Devices: " ++ String.concat ", " (destinations options))%string ;;
  log ("Umount on success: "
       ++ boolString (unmountOnSuccess options))%string ;;
  log ("Validate on success: "
       ++ boolString (validateWriteOnSuccess options))%string ;;
  modify (fun w =>
    {| exitCode := ExitCodes.SUCCESS EXIT_CODES;
       writers :=
         fold_left
           (fun ws destination =>
              JsMap.set destination
                (ImageWriter.make
                   {| WriterOptions.path := destination;
                      WriterOptions.imagePath := imagePath options;
                      WriterOptions.verify :=
                        validateWriteOnSuccess options;
                      WriterOptions.unmountOnSuccess :=
                        unmountOnSuccess options;
                      WriterOptions.checksumAlgorithms :=
                        checksumAlgorithms options |})
                ws)
           (destinations options) (JsMap.empty ImageWriter.t);
       results := [];
       emitted := emitted w;
       exited := exited w |}).

(** What the reactor hands to the worker once it is connected. *)
Inductive Event :=
| EvWrite (options : WriteOptions)
| EvProgress (state : State.t)
| EvError (error : JsError.t)
| EvFinish (result : FlashResult)
| EvIpcError
| EvDisconnect
| EvSIGINT
| EvSIGTERM.

Definition listener (e : Event) : M unit :=
  match e with
  | EvWrite options => onWrite options
  | EvProgress state => onProgress state
  | EvError error => onError error
  | EvFinish result => onFinish (Some result)
  | EvIpcError | EvDisconnect | EvSIGINT | EvSIGTERM =>
      terminate (ExitCodes.SUCCESS EXIT_CODES)
  end.

(** One turn of the reactor.  A listener that throws raises
    [uncaughtException], which [handleError] serves.  Once [terminate]
    has run, the exit happens on the next tick, before any further event
    is dispatched. *)
Definition deliver (w : Worker) (e : Event) : Worker :=
  match exited w with
  | Some _ => w
  | None =>
      match listener e w with
      | (w', Normal _) => w'
      | (w', Throw error) => fst (handleError error w')
      end
  end.

Definition run (w : Worker) (tr : list Event) : Worker :=
  fold_left deliver tr w.

(** The worker right after the [connect] listener has run. *)
Definition connected : Worker :=
  {| exitCode := ExitCodes.SUCCESS EXIT_CODES;
     writers := JsMap.empty ImageWriter.t;
     results := [];
     emitted := [Ready];
     exited := None |}.

End WithExitCodes.

(** The devices of the [finish] events of a run, in order of delivery. *)
Fixpoint finishes (tr : list Event) : list string :=
  match tr with
  | [] => []
  | EvFinish result :: tr' => device (drive result) :: finishes tr'
  | _ :: tr' => finishes tr'
  end.

(** The events of writers that do not fail. *)
Definition quiet (e : Event) : bool :=
  match e with
  | EvProgress _ | EvFinish _ => true
  | _ => false
  end.

(** The payloads of the [state] messages, in order. *)
Fixpoint statePayloads (ms : list Message) : list State.t :=
  match ms with
  | [] => []
  | StateMsg state :: ms' => state :: statePayloads ms'
  | _ :: ms' => statePayloads ms'
  end.

(** The state objects of the [progress] events of a run, in order. *)
Fixpoint progressStates (tr : list Event) : list State.t :=
  match tr with
  | [] => []
  | EvProgress state :: tr' => state :: progressStates tr'
  | _ :: tr' => progressStates tr'
  end.

Definition isDone (m : Message) : bool :=
  match m with Done _ => true | _ => false end.

(** [done] is only ever followed by the exit. *)
Definition doneThenExit (w : Worker) : Prop :=
  existsb isDone (emitted w) = true -> exited w <> None.

Definition isDeviceError (m : Message) : bool :=
  match m with
  | ErrorMsg _ JsUndefined => false
  | ErrorMsg _ _ => true
  | _ => false
  end.

Definition isWrite (e : Event) : bool :=
  match e with
  | EvWrite _ => true
  | _ => false
  end.

Definition isErrorEvent (e : Event) : bool :=
  match e with
  | EvError _ => true
  | _ => false
  end.

Definition isErrorMsg (m : Message) : bool :=
  match m with
  | ErrorMsg _ _ => true
  | _ => false
  end.

(** The result objects of the [finish] events of a run, in order. *)
Fixpoint finishResults (tr : list Event) : list FlashResult :=
  match tr with
  | [] => []
  | EvFinish result :: tr' => result :: finishResults tr'
  | _ :: tr' => finishResults tr'
  end.

(** The writer the [write] listener builds for one destination. *)
Definition newWriter (options : WriteOptions) (destination : string)
  : ImageWriter.t :=
  ImageWriter.make
    {| WriterOptions.path := destination;
       WriterOptions.imagePath := imagePath options;
       WriterOptions.verify := validateWriteOnSuccess options;
       WriterOptions.unmountOnSuccess := unmountOnSuccess options;
       WriterOptions.checksumAlgorithms := checksumAlgorithms options |}.

(** The four lines the [write] listener logs. *)
Definition writeLog (options : WriteOptions) : list Message :=
  [Log ("Image: " ++ imagePath options)%string;
   Log ("Devices: " ++ String.concat ", " (destinations options))%string;
   Log ("Umount on success: "
        ++ (if unmountOnSuccess options then "true" else "false"))%string;
   Log ("Validate on success: "
        ++ (if validateWriteOnSuccess options then "true" else "false"))%string].

(** [done] is the last message, it carries the results as they are, no
    writer is left and the exit is scheduled with [code]. *)
Definition doneLast (code : Z) (w : Worker) : Prop :=
  exists pre : list Message,
    emitted w = pre ++ [Done (results w)] /\
    existsb isDone pre = false /\
    exited w = Some code /\
    writers w = [].

(** What holds of the worker all along a run, [code] being the success
    code: while it runs, [exitCode] is still [code] and no [done] has gone
    out; once the exit is scheduled, either no [done] has gone out or
    [done] is the last message. *)
Definition wellRun (code : Z) (w : Worker) : Prop :=
  match exited w with
  | None => exitCode w = code /\ existsb isDone (emitted w) = false
  | Some _ => existsb isDone (emitted w) = false \/ doneLast code w
  end.

End ChildWriter.

(* ------------------------------------------------------------------ *)
(** ** The aggregation as the design document words it *)

Module Reference.

(** The document names the two phases [write] and [verify]; the progress
    objects of the program tag them ["write"] and ["check"]. *)
Definition write : string := "write".
Definition verify : string := "check".

(** The number of entries of the map whose phase is [write]. *)
Definition writingCount (m : JsMap.t State.t) : nat :=
  length
    (filter (fun s => String.eqb (State.type s) write) (JsMap.values m)).

(** The arithmetic mean of one field over the entries of the map. *)
Definition meanOf (field : State.t -> JsNum.t) (m : JsMap.t State.t)
  : JsNum.t :=
  JsNum.mean (map field (JsMap.values m)).

Definition aggregated (m : JsMap.t State.t) : Progress.t :=
  {| Progress.type := if 0 <? writingCount m then write else verify;
     Progress.delta := meanOf State.delta m;
     Progress.transferred := meanOf State.transferred m;
     Progress.percentage := meanOf State.percentage m;
     Progress.remaining := meanOf State.remaining m;
     Progress.runtime := meanOf State.runtime m;
     Progress.speed := meanOf State.speed m;
     Progress.eta := meanOf State.eta m |}.

End Reference.

(* ------------------------------------------------------------------ *)
(** ** Concrete runs *)

Module Scenario.

Definition devA : string := "/dev/a".
Definition devB : string := "/dev/b".
Definition devC : string := "/dev/c".

(** A progress state of [device] in phase [type] at [percentage] percent,
    at 2 bytes per second with 8 seconds to go. *)
Definition snapshot (device type : string) (percentage : Q) : State.t :=
  {| State.device := device;
     State.type := type;
     State.delta := JsNum.Fin 1;
     State.transferred := JsNum.Fin percentage;
     State.percentage := JsNum.Fin percentage;
     State.remaining := JsNum.Fin (100 - percentage);
     State.runtime := JsNum.Fin 4;
     State.speed := JsNum.Fin 2;
     State.eta := JsNum.Fin 8 |}.

Definition writeFailed : JsError.t := JsError.make "write failed" None.

(** The CLI on an image and a list of drives. *)
Definition cli (drives : list string) : Cli.Closure :=
  Cli.start "etcher.img" true true drives.

Definition writer (drive : string) : ImageWriter.t :=
  Cli.newWriter "etcher.img" true true drive.

Definition flashed (crc32 : string) : Cli.FlashState :=
  {| Cli.checksum := {| Cli.crc32 := crc32 |} |}.

(** The [write] command for the same image. *)
Definition write (destinations : list string) : ChildWriter.WriteOptions :=
  {| ChildWriter.imagePath := "etcher.img";
     ChildWriter.destinations := destinations;
     ChildWriter.unmountOnSuccess := true;
     ChildWriter.validateWriteOnSuccess := true;
     ChildWriter.checksumAlgorithms := ["crc32"] |}.

Definition result (device crc32 : string) : ChildWriter.FlashResult :=
  {| ChildWriter.drive := {| ChildWriter.device := device |};
     ChildWriter.checksum := [("crc32", crc32)] |}.

(** The worker with the upstream exit codes, from its connection on. *)
Definition worker (tr : list ChildWriter.Event) : ChildWriter.Worker :=
  ChildWriter.run ExitCodes.upstream
    (ChildWriter.connected ExitCodes.upstream) tr.

End Scenario.

(* ------------------------------------------------------------------ *)
(** ** Facts about numbers *)

Section JsNumFacts.
Local Open Scope Q_scope.

Lemma jeq_refl (a : JsNum.t) : a =j= a.
Proof. destruct a; simpl; auto; reflexivity. Qed.

Lemma jeq_sym (a b : JsNum.t) : a =j= b -> b =j= a.
Proof. destruct a, b; simpl; auto; intros H; symmetry; exact H. Qed.

Lemma jeq_trans (a b c : JsNum.t) : a =j= b -> b =j= c -> a =j= c.
Proof.
  destruct a, b, c; simpl; auto; try contradiction.
  intros H1 H2; rewrite H1; exact H2.
Qed.

Lemma add_assoc (a b c : JsNum.t) :
  JsNum.add (JsNum.add a b) c =j= JsNum.add a (JsNum.add b c).
Proof. destruct a, b, c; simpl; auto; ring. Qed.

Lemma add_zero_l (a : JsNum.t) : JsNum.add JsNum.zero a =j= a.
Proof. destruct a; simpl; auto; ring. Qed.

Lemma add_proper (a a' b b' : JsNum.t) :
  a =j= a' -> b =j= b' -> JsNum.add a b =j= JsNum.add a' b'.
Proof.
  destruct a, a', b, b'; simpl; auto; try contradiction.
  intros H1 H2; rewrite H1, H2; reflexivity.
Qed.

Lemma div_proper_l (a a' n : JsNum.t) :
  a =j= a' -> JsNum.div a n =j= JsNum.div a' n.
Proof.
  destruct a, a', n; simpl; auto; try contradiction.
  - intros H. rewrite H.
    destruct (q1 ?= 0); try (simpl; rewrite H; reflexivity).
    destruct (q0 ?= 0); simpl; auto.
  - intros _; reflexivity.
  - intros _; reflexivity.
  - intros _; destruct (q ?= 0); simpl; auto.
  - intros _; destruct (q ?= 0); simpl; auto.
Qed.

(** The left-to-right accumulation of [forEach] against the list sum. *)
Lemma fold_add_sum (l : list JsNum.t) (a : JsNum.t) :
  fold_left JsNum.add l a =j= JsNum.add a (JsNum.sum l).
Proof.
  revert a; induction l as [|x l IH]; intros a; simpl.
  - destruct a; simpl; auto; ring.
  - eapply jeq_trans; [apply IH|]. apply add_assoc.
Qed.

Lemma of_nat_pos (n : nat) : (0 < n)%nat -> 0 < inject_Z (Z.of_nat n).
Proof.
  intros H. unfold Qlt; simpl. lia.
Qed.

Lemma div_of_nat_fin (x : Q) (n : nat) :
  (0 < n)%nat ->
  JsNum.div (JsNum.Fin x) (JsNum.of_nat n)
  = JsNum.Fin (x / inject_Z (Z.of_nat n)).
Proof.
  intros H. unfold JsNum.div, JsNum.of_nat.
  pose proof (of_nat_pos H) as Hp.
  destruct (Qcompare_spec (inject_Z (Z.of_nat n)) 0) as [E|E|E];
    try reflexivity.
  rewrite E in Hp. exfalso; revert Hp; apply Qlt_irrefl.
Qed.

Lemma div_one (a : JsNum.t) : JsNum.div a (JsNum.of_nat 1) =j= a.
Proof.
  destruct a; simpl; auto.
  unfold JsNum.of_nat; simpl. field.
Qed.

Lemma between_proper (lo hi : Q) (a b : JsNum.t) :
  a =j= b -> JsNum.between lo hi a -> JsNum.between lo hi b.
Proof.
  destruct a, b; simpl; auto; try contradiction.
  intros H; rewrite H; auto.
Qed.

Lemma nonneg_proper (a b : JsNum.t) :
  a =j= b -> JsNum.nonneg a -> JsNum.nonneg b.
Proof.
  destruct a, b; simpl; auto; try contradiction.
  intros H; rewrite H; auto.
Qed.

(** The sum of [n] numbers of [[lo, hi]] lies in [[n * lo, n * hi]]. *)
Lemma sum_between (lo hi : Q) (l : list JsNum.t) :
  Forall (JsNum.between lo hi) l ->
  JsNum.between (inject_Z (Z.of_nat (length l)) * lo)
                (inject_Z (Z.of_nat (length l)) * hi) (JsNum.sum l).
Proof.
  induction 1 as [|x l Hx Hl IH].
  - simpl. split; ring_simplify; apply Qle_refl.
  - change (JsNum.sum (x :: l)) with (JsNum.add x (JsNum.sum l)).
    destruct x as [q| | |]; try contradiction.
    destruct (JsNum.sum l) as [s| | |]; try contradiction.
    simpl in Hx, IH |- *.
    rewrite Zpos_P_of_succ_nat, <- Z.add_1_r, inject_Z_plus.
    change (inject_Z 1) with 1.
    destruct Hx, IH. split; lra.
Qed.

(** The mean of a non-empty list of numbers of [[lo, hi]] lies in
    [[lo, hi]]. *)
Lemma mean_between (lo hi : Q) (l : list JsNum.t) :
  l <> [] ->
  Forall (JsNum.between lo hi) l ->
  JsNum.between lo hi (JsNum.mean l).
Proof.
  intros Hne Hl. pose proof (sum_between Hl) as Hs.
  assert (Hn : (0 < length l)%nat) by (destruct l; simpl; [congruence|lia]).
  unfold JsNum.mean.
  destruct (JsNum.sum l) as [s| | |]; try contradiction.
  rewrite div_of_nat_fin by assumption.
  pose proof (of_nat_pos Hn) as Hp.
  simpl in Hs |- *. destruct Hs as [H1 H2]. split.
  - apply Qle_shift_div_l; [exact Hp|]. rewrite Qmult_comm; exact H1.
  - apply Qle_shift_div_r; [exact Hp|]. rewrite Qmult_comm; exact H2.
Qed.

(** The same for a lower bound alone. *)
Lemma sum_nonneg (l : list JsNum.t) :
  Forall JsNum.nonneg l -> JsNum.nonneg (JsNum.sum l).
Proof.
  induction 1 as [|x l Hx Hl IH].
  - simpl. apply Qle_refl.
  - change (JsNum.sum (x :: l)) with (JsNum.add x (JsNum.sum l)).
    destruct x as [q| | |]; try contradiction.
    destruct (JsNum.sum l) as [s| | |]; try contradiction.
    simpl in *. lra.
Qed.

Lemma mean_nonneg (l : list JsNum.t) :
  l <> [] -> Forall JsNum.nonneg l -> JsNum.nonneg (JsNum.mean l).
Proof.
  intros Hne Hl. pose proof (sum_nonneg Hl) as Hs.
  assert (Hn : (0 < length l)%nat) by (destruct l; simpl; [congruence|lia]).
  unfold JsNum.mean.
  destruct (JsNum.sum l) as [s| | |]; try contradiction.
  rewrite div_of_nat_fin by assumption.
  pose proof (of_nat_pos Hn) as Hp.
  simpl in Hs |- *.
  apply Qle_shift_div_l; [exact Hp|]. lra.
Qed.

End JsNumFacts.

(* ------------------------------------------------------------------ *)
(** ** Facts about maps *)

Section JsMapFacts.
Variable V : Type.
Implicit Types (m : JsMap.t V) (k : string) (v : V).

Lemma size_set_pos k v m : 0 < JsMap.size (JsMap.set k v m).
Proof.
  unfold JsMap.size.
  destruct m as [|[k' v'] m]; simpl; [lia|].
  destruct (String.eqb k k'); simpl; lia.
Qed.

Lemma set_not_nil k v m : JsMap.set k v m <> [].
Proof.
  pose proof (size_set_pos k v m) as H. intros E; rewrite E in H.
  inversion H.
Qed.

Lemma keys_set_new k v m :
  ~ In k (JsMap.keys m) -> JsMap.keys (JsMap.set k v m) = JsMap.keys m ++ [k].
Proof.
  induction m as [|[k' v'] m IH]; simpl; intros H; [reflexivity|].
  destruct (String.eqb_spec k k') as [E|E].
  - exfalso; apply H; left; congruence.
  - simpl. f_equal. apply IH. intros Hin; apply H; right; exact Hin.
Qed.

Lemma in_keys_set x k v m :
  In x (JsMap.keys (JsMap.set k v m)) <-> x = k \/ In x (JsMap.keys m).
Proof.
  induction m as [|[k' v'] m IH]; simpl.
  - intuition.
  - destruct (String.eqb_spec k k') as [E|E]; simpl.
    + subst. intuition.
    + rewrite IH. intuition.
Qed.

Lemma in_keys_delete x k m :
  In x (JsMap.keys (JsMap.delete k m)) <-> x <> k /\ In x (JsMap.keys m).
Proof.
  induction m as [|[k' v'] m IH]; simpl.
  - intuition.
  - destruct (String.eqb_spec k k') as [E|E]; simpl.
    + subst. rewrite IH. intuition. subst; intuition.
    + rewrite IH. intuition. subst; intuition.
Qed.

Lemma delete_absent k m :
  ~ In k (JsMap.keys m) -> JsMap.delete k m = m.
Proof.
  induction m as [|[k' v'] m IH]; simpl; intros H; [reflexivity|].
  destruct (String.eqb_spec k k') as [E|E].
  - exfalso; apply H; left; congruence.
  - f_equal. apply IH. intros Hin; apply H; right; exact Hin.
Qed.

Lemma NoDup_keys_delete k m :
  NoDup (JsMap.keys m) -> NoDup (JsMap.keys (JsMap.delete k m)).
Proof.
  induction m as [|[k' v'] m IH]; simpl; intros H; [constructor|].
  inversion H as [|? ? Hn Hd]; subst.
  destruct (String.eqb k k'); [auto|].
  simpl. constructor; [|auto].
  intros Hin. apply in_keys_delete in Hin. tauto.
Qed.

(** Deleting a present key of a map without repeated keys removes one
    entry. *)
Lemma size_delete_present k m :
  NoDup (JsMap.keys m) -> In k (JsMap.keys m) ->
  S (JsMap.size (JsMap.delete k m)) = JsMap.size m.
Proof.
  unfold JsMap.size.
  induction m as [|[k' v'] m IH]; simpl; intros Hd Hin; [contradiction|].
  inversion Hd as [|? ? Hn Hd']; subst.
  destruct (String.eqb_spec k k') as [E|E].
  - subst. rewrite delete_absent by assumption. reflexivity.
  - simpl. f_equal. apply IH; [assumption|].
    destruct Hin as [Hin|Hin]; [congruence|assumption].
Qed.

Lemma has_in k m : JsMap.has k m = true <-> In k (JsMap.keys m).
Proof.
  unfold JsMap.has, JsMap.keys. rewrite existsb_exists, in_map_iff. split.
  - intros [kv [Hin E]]. apply String.eqb_eq in E. exists kv; auto.
  - intros [kv [E Hin]]. exists kv. split; [assumption|].
    apply String.eqb_eq; auto.
Qed.

Lemma size_keys m : JsMap.size m = length (JsMap.keys m).
Proof. unfold JsMap.size, JsMap.keys. symmetry; apply length_map. Qed.

(** Registering distinct keys one after the other keeps them in order. *)
Lemma keys_fold_set (f : string -> V) (ks : list string) m :
  NoDup (JsMap.keys m ++ ks) ->
  JsMap.keys (fold_left (fun ws k => JsMap.set k (f k) ws) ks m)
  = JsMap.keys m ++ ks.
Proof.
  revert m; induction ks as [|k ks IH]; intros m Hd; simpl.
  - symmetry; apply app_nil_r.
  - assert (Hk : ~ In k (JsMap.keys m)).
    { apply NoDup_remove_2 in Hd. intros Hin; apply Hd.
      apply in_or_app; left; exact Hin. }
    rewrite IH; rewrite keys_set_new by assumption.
    + rewrite <- app_assoc. reflexivity.
    + rewrite <- app_assoc. exact Hd.
Qed.

End JsMapFacts.

(* ------------------------------------------------------------------ *)
(** ** The progress aggregation of the CLI *)

Section Aggregation.

(** What [states.forEach] leaves in [writing] and [progress]: every field
    has been accumulated on its own, from the oldest entry on. *)
Lemma forEach_sumState (m : JsMap.t State.t) (w : nat) (p : Progress.t) :
  JsMap.forEach Cli.sumState m (w, p)
  = (w + Reference.writingCount m,
     {| Progress.type := Progress.type p;
        Progress.delta :=
          fold_left JsNum.add (map State.delta (JsMap.values m))
            (Progress.delta p);
        Progress.transferred :=
          fold_left JsNum.add (map State.transferred (JsMap.values m))
            (Progress.transferred p);
        Progress.percentage :=
          fold_left JsNum.add (map State.percentage (JsMap.values m))
            (Progress.percentage p);
        Progress.remaining :=
          fold_left JsNum.add (map State.remaining (JsMap.values m))
            (Progress.remaining p);
        Progress.runtime :=
          fold_left JsNum.add (map State.runtime (JsMap.values m))
            (Progress.runtime p);
        Progress.speed :=
          fold_left JsNum.add (map State.speed (JsMap.values m))
            (Progress.speed p);
        Progress.eta :=
          fold_left JsNum.add (map State.eta (JsMap.values m))
            (Progress.eta p) |}).
Proof.
  unfold JsMap.forEach.
  revert w p; induction m as [|[k s] m IH]; intros w p.
  - simpl. rewrite Nat.add_0_r. destruct p; reflexivity.
  - cbn [fold_left snd]. unfold Cli.sumState at 2. rewrite IH.
    unfold Reference.writingCount, Reference.write. simpl.
    destruct (String.eqb (State.type s) "write"); simpl;
      f_equal; lia.
Qed.

(** One field of the recomputed [progress]. *)
Lemma average_field (field : State.t -> JsNum.t) (m : JsMap.t State.t) :
  JsNum.div (fold_left JsNum.add (map field (JsMap.values m)) JsNum.zero)
            (JsNum.of_nat (JsMap.size m))
  =j= Reference.meanOf field m.
Proof.
  unfold Reference.meanOf, JsNum.mean, JsMap.values, JsMap.size.
  rewrite !length_map. apply div_proper_l.
  eapply jeq_trans; [apply fold_add_sum|apply add_zero_l].
Qed.

Lemma aggregate_reference (m : JsMap.t State.t) (p : Progress.t) :
  Progress.equiv (Cli.aggregate m p) (Reference.aggregated m).
Proof.
  unfold Cli.aggregate. rewrite forEach_sumState.
  unfold Cli.average, Progress.equiv, Reference.aggregated; simpl.
  repeat split; apply average_field.
Qed.

End Aggregation.

(** C5.  After every progress update, the [progress] object, which is also
    the snapshot just handed to the progress bar, is the reference
    aggregation of the latest-known-state map: its phase is [write] when the
    map has at least one entry in phase [write] and [verify] (tagged
    ["check"]) otherwise, and each numeric field is the arithmetic mean of
    that field over the entries of the map. *)
Theorem C5_progress_is_reference_aggregation :
  forall (c : Cli.Closure) (state : State.t),
    let c' := Cli.onProgress c state in
    Cli.states c' = JsMap.set (State.device state) state (Cli.states c) /\
    Progress.equiv (Cli.progress c') (Reference.aggregated (Cli.states c')) /\
    Cli.progressBars c'
    = Cli.progressBars c
      ++ [(Progress.type (Cli.progress c'), Cli.progress c')].
Proof.
  intros c state c'. subst c'. unfold Cli.onProgress; simpl.
  repeat split; try apply aggregate_reference.
Qed.

(* ------------------------------------------------------------------ *)
(** ** The fan-in of the CLI: results, active writers and resolution *)

Section CliFanIn.

Lemma terminals_app (p q : list Cli.Event) :
  Cli.terminals (p ++ q) = Cli.terminals p ++ Cli.terminals q.
Proof.
  induction p as [|[s|w e|w s] p IH]; simpl; auto; f_equal; exact IH.
Qed.

(** Every terminal event appends one entry carrying its device. *)
Lemma run_results (tr : list Cli.Event) (c : Cli.Closure) :
  map Cli.device (Cli.results (Cli.run c tr))
  = map Cli.device (Cli.results c) ++ Cli.terminals tr.
Proof.
  revert c; induction tr as [|[s|w e|w s] tr IH]; intros c;
    [simpl; symmetry; apply app_nil_r|..];
    change (Cli.run c (?e :: tr)) with (Cli.run (Cli.step c e) tr);
    rewrite IH; simpl; [reflexivity|..];
    rewrite map_app, <- app_assoc; reflexivity.
Qed.

(** Between two terminal events the results stand. *)
Lemma run_no_terminal (tr : list Cli.Event) (c : Cli.Closure) :
  Cli.terminals tr = [] -> Cli.results (Cli.run c tr) = Cli.results c.
Proof.
  revert c; induction tr as [|[s|w e|w s] tr IH]; intros c H;
    try discriminate; [reflexivity|].
  change (Cli.run c (Cli.EvProgress s :: tr))
    with (Cli.run (Cli.onProgress c s) tr).
  rewrite IH by exact H. reflexivity.
Qed.

(** The effect of [settle] for a device that is still active. *)
Lemma settle_active (c : Cli.Closure) (rs : list Cli.Result) (d : string) :
  NoDup (JsMap.keys (Cli.writers c)) ->
  In d (JsMap.keys (Cli.writers c)) ->
  let c1 := Cli.settle c rs d in
  Cli.results c1 = rs /\
  NoDup (JsMap.keys (Cli.writers c1)) /\
  S (JsMap.size (Cli.writers c1)) = JsMap.size (Cli.writers c) /\
  (forall x, In x (JsMap.keys (Cli.writers c1)) <->
             x <> d /\ In x (JsMap.keys (Cli.writers c))) /\
  Cli.resolveCalls c1
  = Cli.resolveCalls c
    ++ (if JsMap.size (Cli.writers c1) =? 0 then [rs] else []).
Proof.
  intros Hd Hin c1. subst c1. unfold Cli.settle; simpl.
  split; [reflexivity|].
  split; [apply NoDup_keys_delete; assumption|].
  split; [apply size_delete_present; assumption|].
  split; [intros x; apply in_keys_delete|].
  destruct (JsMap.size (JsMap.delete d (Cli.writers c)) =? 0);
    [reflexivity|symmetry; apply app_nil_r].
Qed.

(** The run of a trace in which every terminal event is the first one of
    a device that is still active: each such event retires one writer, and
    [resolve] is called once, by the event that retires the last one. *)
Lemma run_fan_in (tr : list Cli.Event) (c : Cli.Closure) :
  NoDup (JsMap.keys (Cli.writers c)) ->
  NoDup (Cli.terminals tr) ->
  incl (Cli.terminals tr) (JsMap.keys (Cli.writers c)) ->
  let c' := Cli.run c tr in
  length (Cli.terminals tr) + JsMap.size (Cli.writers c')
  = JsMap.size (Cli.writers c) /\
  Cli.resolveCalls c'
  = Cli.resolveCalls c
    ++ (if completes (JsMap.size (Cli.writers c)) (Cli.terminals tr)
        then [Cli.results c'] else []).
Proof.
  revert c. revert tr.
  assert (Hterm : forall (tr0 : list Cli.Event) (d : string)
                    (rs : Cli.Closure -> list Cli.Result),
    (forall c : Cli.Closure,
       NoDup (JsMap.keys (Cli.writers c)) ->
       NoDup (Cli.terminals tr0) ->
       incl (Cli.terminals tr0) (JsMap.keys (Cli.writers c)) ->
       length (Cli.terminals tr0) + JsMap.size (Cli.writers (Cli.run c tr0))
       = JsMap.size (Cli.writers c) /\
       Cli.resolveCalls (Cli.run c tr0)
       = Cli.resolveCalls c
         ++ (if completes (JsMap.size (Cli.writers c)) (Cli.terminals tr0)
             then [Cli.results (Cli.run c tr0)] else [])) ->
    forall c : Cli.Closure,
      NoDup (JsMap.keys (Cli.writers c)) ->
      NoDup (d :: Cli.terminals tr0) ->
      incl (d :: Cli.terminals tr0) (JsMap.keys (Cli.writers c)) ->
      let c1 := Cli.settle c (rs c) d in
      S (length (Cli.terminals tr0)) + JsMap.size (Cli.writers (Cli.run c1 tr0))
      = JsMap.size (Cli.writers c) /\
      Cli.resolveCalls (Cli.run c1 tr0)
      = Cli.resolveCalls c
        ++ (if completes (JsMap.size (Cli.writers c))
                 (d :: Cli.terminals tr0)
            then [Cli.results (Cli.run c1 tr0)] else [])).
  { intros tr d rs IH c Hc Hts Hincl c1.
    inversion Hts as [|? ? Hnd Hts']; subst.
    assert (Hd : In d (JsMap.keys (Cli.writers c)))
      by (apply Hincl; left; reflexivity).
    destruct (settle_active c (rs c) d Hc Hd)
      as (Hrs & Hc1 & Hsize & Hkeys & Hres).
    fold c1 in Hrs, Hc1, Hsize, Hkeys, Hres.
    assert (Hincl1 : incl (Cli.terminals tr) (JsMap.keys (Cli.writers c1))).
    { intros x Hx. apply Hkeys. split.
      - intros E; subst; contradiction.
      - apply Hincl; right; exact Hx. }
    destruct (IH c1 Hc1 Hts' Hincl1) as [IHsize IHres].
    split; [lia|].
    rewrite IHres, Hres, <- app_assoc. f_equal.
    unfold completes in *. simpl length.
    destruct (JsMap.size (Cli.writers c1)) as [|n] eqn:En.
    - (* the last active writer has just been retired *)
      assert (Hnil : Cli.terminals tr = []).
      { destruct (Cli.terminals tr) as [|x ts]; [reflexivity|].
        exfalso. assert (Hx : In x (JsMap.keys (Cli.writers c1)))
          by (apply Hincl1; left; reflexivity).
        rewrite size_keys in En.
        destruct (JsMap.keys (Cli.writers c1)); [contradiction|discriminate]. }
      rewrite Hnil in *. simpl.
      rewrite <- Hsize. simpl.
      rewrite (run_no_terminal tr c1 Hnil), Hrs. reflexivity.
    - rewrite <- Hsize. simpl.
      destruct (Cli.terminals tr) as [|x ts] eqn:Ets; simpl; reflexivity. }
  induction tr as [|[s|w e|w s] tr IH]; intros c Hc Hts Hincl; simpl.
  - split; [reflexivity|]. unfold completes; simpl.
    symmetry; apply app_nil_r.
  - apply (IH (Cli.onProgress c s)); assumption.
  - apply (Hterm tr _ (fun c => Cli.results c ++ [Cli.ResultError _ e]) IH);
      assumption.
  - apply (Hterm tr _ (fun c => Cli.results c ++ [Cli.ResultFlash _ s]) IH);
      assumption.
Qed.

(** [start] registers the drives in order when they are distinct. *)
Lemma start_writers (imagePath : string) (check unmount : bool)
    (drives : list string) :
  NoDup drives ->
  JsMap.keys (Cli.writers (Cli.start imagePath check unmount drives))
  = drives.
Proof.
  intros Hd. unfold Cli.start; simpl.
  rewrite (keys_fold_set (Cli.newWriter imagePath check unmount));
    simpl; auto.
Qed.

End CliFanIn.

(** The CLI promise: for distinct drives and a run that delivers exactly one
    terminal event per drive, [resolve] is called once, by the last terminal
    event, with one entry per drive in completion order; before that it has
    not been called. *)
Lemma cli_resolves_once (imagePath : string) (check unmount : bool)
    (drives : list string) (tr : list Cli.Event) :
  drives <> [] ->
  NoDup drives ->
  Permutation (Cli.terminals tr) drives ->
  let c0 := Cli.start imagePath check unmount drives in
  Cli.resolveCalls (Cli.run c0 tr) = [Cli.results (Cli.run c0 tr)] /\
  map Cli.device (Cli.results (Cli.run c0 tr)) = Cli.terminals tr /\
  (forall p q : list Cli.Event,
     tr = p ++ q ->
     (exists d, In d drives /\ ~ In d (Cli.terminals p)) ->
     Cli.resolveCalls (Cli.run c0 p) = []).
Proof.
  intros Hne Hnd Hperm c0.
  assert (Hkeys : JsMap.keys (Cli.writers c0) = drives)
    by (apply start_writers; assumption).
  assert (Hsize : JsMap.size (Cli.writers c0) = length drives)
    by (rewrite size_keys, Hkeys; reflexivity).
  assert (Hc0 : NoDup (JsMap.keys (Cli.writers c0)))
    by (rewrite Hkeys; assumption).
  assert (Hts : NoDup (Cli.terminals tr))
    by (apply (Permutation_NoDup (Permutation_sym Hperm)); assumption).
  assert (Hincl : incl (Cli.terminals tr) (JsMap.keys (Cli.writers c0))).
  { rewrite Hkeys. intros x Hx. apply (Permutation_in _ Hperm); exact Hx. }
  split; [|split].
  - destruct (run_fan_in tr c0 Hc0 Hts Hincl) as [_ Hres].
    rewrite Hres, Hsize. unfold completes.
    rewrite (Permutation_length Hperm), Nat.eqb_refl.
    destruct drives; [congruence|reflexivity].
  - rewrite run_results. reflexivity.
  - intros p q Htr (d & Hd & Hnot).
    subst tr. rewrite terminals_app in Hts, Hincl, Hperm.
    assert (Hp : NoDup (Cli.terminals p))
      by (apply NoDup_app_remove_r in Hts; exact Hts).
    assert (Hpi : incl (Cli.terminals p) (JsMap.keys (Cli.writers c0)))
      by (intros x Hx; apply Hincl, in_or_app; left; exact Hx).
    destruct (run_fan_in p c0 Hc0 Hp Hpi) as [_ Hres].
    rewrite Hres, Hsize. unfold completes.
    assert (Hlt : length (Cli.terminals p) < length drives).
    { apply (@NoDup_incl_length _ (d :: Cli.terminals p) drives).
      - constructor; assumption.
      - intros x [E|Hx]; [subst x; assumption|].
        rewrite <- Hkeys. apply Hpi; exact Hx. }
    destruct (Nat.eqb_spec (length (Cli.terminals p)) (length drives));
      [lia|]. rewrite andb_false_r. reflexivity.
Qed.

(* ------------------------------------------------------------------ *)
(** ** The listeners of the child writer *)

Section ChildWriterListeners.
Variable EXIT_CODES : ExitCodes.t.

Lemma deliver_exited (w : ChildWriter.Worker) (e : ChildWriter.Event) :
  ChildWriter.exited w <> None -> ChildWriter.deliver EXIT_CODES w e = w.
Proof.
  unfold ChildWriter.deliver. destruct (ChildWriter.exited w); congruence.
Qed.

Lemma run_exited (tr : list ChildWriter.Event) (w : ChildWriter.Worker) :
  ChildWriter.exited w <> None -> ChildWriter.run EXIT_CODES w tr = w.
Proof.
  induction tr as [|e tr IH]; intros H; [reflexivity|].
  simpl. rewrite deliver_exited by assumption. apply IH; assumption.
Qed.

Lemma worker_run_app (w : ChildWriter.Worker) (p q : list ChildWriter.Event) :
  ChildWriter.run EXIT_CODES w (p ++ q) = ChildWriter.run EXIT_CODES (ChildWriter.run EXIT_CODES w p) q.
Proof. apply fold_left_app. Qed.

(** A [progress] event: the state object goes out as it came. *)
Lemma deliver_progress (w : ChildWriter.Worker) (state : State.t) :
  ChildWriter.exited w = None ->
  ChildWriter.deliver EXIT_CODES w (ChildWriter.EvProgress state)
  = {| ChildWriter.exitCode := ChildWriter.exitCode w;
       ChildWriter.writers := ChildWriter.writers w;
       ChildWriter.results := ChildWriter.results w;
       ChildWriter.emitted :=
         ChildWriter.emitted w ++ [ChildWriter.StateMsg state];
       ChildWriter.exited := None |}.
Proof.
  intros H. unfold ChildWriter.deliver. rewrite H. simpl.
  rewrite H. reflexivity.
Qed.

(** A [finish] event: the result is recorded, its device retired, and
    [done] goes out when no writer is left. *)
Lemma deliver_finish (w : ChildWriter.Worker)
    (result : ChildWriter.FlashResult) :
  ChildWriter.exited w = None ->
  let d := ChildWriter.device (ChildWriter.drive result) in
  let writers := JsMap.delete d (ChildWriter.writers w) in
  let results := ChildWriter.results w ++ [result] in
  ChildWriter.deliver EXIT_CODES w (ChildWriter.EvFinish result)
  = {| ChildWriter.exitCode := ChildWriter.exitCode w;
       ChildWriter.writers := writers;
       ChildWriter.results := results;
       ChildWriter.emitted :=
         (ChildWriter.emitted w
            ++ [ChildWriter.Log ("Finish: " ++ d)%string])
         ++ (if JsMap.size writers =? 0
             then [ChildWriter.Done results] else []);
       ChildWriter.exited :=
         if JsMap.size writers =? 0
         then Some (ChildWriter.orSuccess EXIT_CODES (ChildWriter.exitCode w)) else None |}.
Proof.
  intros H d writers results.
  unfold ChildWriter.deliver. rewrite H.
  unfold ChildWriter.listener, ChildWriter.onFinish, ChildWriter.bind,
    ChildWriter.ret, ChildWriter.log, ChildWriter.emit, ChildWriter.modify,
    ChildWriter.get, ChildWriter.terminate.
  cbn [ChildWriter.writers ChildWriter.results ChildWriter.emitted
       ChildWriter.exited ChildWriter.exitCode fst snd].
  fold d. fold writers. fold results.
  destruct (JsMap.size writers =? 0); cbn; rewrite ?H, ?app_nil_r;
    reflexivity.
Qed.

(** An [error] event: after the log line and the assignment of
    [exitCode], reading [this.destinationDevice.device] throws; the worker
    reports the [TypeError] through [handleError] and schedules its exit. *)
Lemma onError_throws (w : ChildWriter.Worker) (error : JsError.t) :
  ChildWriter.onError EXIT_CODES error w
  = ({| ChildWriter.exitCode := ExitCodes.GENERAL_ERROR EXIT_CODES;
        ChildWriter.writers := ChildWriter.writers w;
        ChildWriter.results := ChildWriter.results w;
        ChildWriter.emitted :=
          ChildWriter.emitted w
            ++ [ChildWriter.Log (JsError.message error)];
        ChildWriter.exited := ChildWriter.exited w |},
     ChildWriter.Throw
       (ChildWriter.TypeError "Cannot read property 'device' of undefined")).
Proof. reflexivity. Qed.

Lemma deliver_error (w : ChildWriter.Worker) (error : JsError.t) :
  ChildWriter.exited w = None ->
  ChildWriter.deliver EXIT_CODES w (ChildWriter.EvError error)
  = {| ChildWriter.exitCode := ExitCodes.GENERAL_ERROR EXIT_CODES;
       ChildWriter.writers := ChildWriter.writers w;
       ChildWriter.results := ChildWriter.results w;
       ChildWriter.emitted :=
         ChildWriter.emitted w
           ++ [ChildWriter.Log (JsError.message error);
               ChildWriter.ErrorMsg
                 (ChildWriter.TypeError
                    "Cannot read property 'device' of undefined")
                 ChildWriter.JsUndefined];
       ChildWriter.exited :=
         Some (ChildWriter.orSuccess EXIT_CODES (ExitCodes.GENERAL_ERROR EXIT_CODES)) |}.
Proof.
  intros H. unfold ChildWriter.deliver. rewrite H.
  unfold ChildWriter.listener. rewrite onError_throws.
  cbn. rewrite H, <- app_assoc. reflexivity.
Qed.

(** The transport and signal events schedule a successful exit and send
    nothing. *)
Lemma deliver_abort (w : ChildWriter.Worker) (e : ChildWriter.Event) :
  ChildWriter.exited w = None ->
  e = ChildWriter.EvIpcError \/ e = ChildWriter.EvDisconnect \/
  e = ChildWriter.EvSIGINT \/ e = ChildWriter.EvSIGTERM ->
  ChildWriter.emitted (ChildWriter.deliver EXIT_CODES w e) = ChildWriter.emitted w /\
  ChildWriter.exited (ChildWriter.deliver EXIT_CODES w e) <> None.
Proof.
  intros H [E|[E|[E|E]]]; subst e; unfold ChildWriter.deliver; rewrite H;
    cbn; rewrite H; split; congruence.
Qed.

Lemma deliver_doneThenExit (w : ChildWriter.Worker) (e : ChildWriter.Event) :
  ChildWriter.doneThenExit w -> ChildWriter.doneThenExit (ChildWriter.deliver EXIT_CODES w e).
Proof.
  intros Hw. destruct (ChildWriter.exited w) as [c|] eqn:Hx.
  - rewrite deliver_exited by congruence. exact Hw.
  - assert (Hnone : existsb ChildWriter.isDone (ChildWriter.emitted w)
                    = false).
    { destruct (existsb ChildWriter.isDone (ChildWriter.emitted w)) eqn:E;
        [|reflexivity]. exfalso. apply Hw; [exact E|exact Hx]. }
    destruct e as [o|s|err|r| | | |].
    + unfold ChildWriter.doneThenExit, ChildWriter.deliver. rewrite Hx. cbn.
      rewrite !existsb_app, Hnone. cbn. discriminate.
    + rewrite deliver_progress by assumption. unfold ChildWriter.doneThenExit; cbn.
      rewrite existsb_app, Hnone. cbn. discriminate.
    + rewrite deliver_error by assumption. unfold ChildWriter.doneThenExit; cbn.
      discriminate.
    + rewrite deliver_finish by assumption. unfold ChildWriter.doneThenExit; cbn.
      destruct (JsMap.size _ =? 0); [discriminate|].
      rewrite !existsb_app, Hnone. cbn. discriminate.
    + intros _. apply deliver_abort; auto.
    + intros _. apply deliver_abort; auto.
    + intros _. apply deliver_abort; auto.
    + intros _. apply deliver_abort; auto.
Qed.

Lemma run_doneThenExit (tr : list ChildWriter.Event) (w : ChildWriter.Worker) :
  ChildWriter.doneThenExit w -> ChildWriter.doneThenExit (ChildWriter.run EXIT_CODES w tr).
Proof.
  revert w; induction tr as [|e tr IH]; intros w H; [exact H|].
  simpl. apply IH, deliver_doneThenExit, H.
Qed.

Lemma connected_doneThenExit :
  ChildWriter.doneThenExit (ChildWriter.connected EXIT_CODES).
Proof. unfold ChildWriter.doneThenExit; cbn. discriminate. Qed.

End ChildWriterListeners.

(* ------------------------------------------------------------------ *)
(** ** The fan-in of the child writer on runs without a failing device *)

Section ChildWriterFanIn.
Variable EXIT_CODES : ExitCodes.t.

(** With every terminal event a [finish], the first of a device that is
    still active: [done] goes out once, with the event that retires the
    last writer, and the exit is scheduled by that event alone. *)
Lemma worker_fan_in (tr : list ChildWriter.Event) (w : ChildWriter.Worker) :
  ChildWriter.exited w = None ->
  NoDup (JsMap.keys (ChildWriter.writers w)) ->
  NoDup (ChildWriter.finishes tr) ->
  incl (ChildWriter.finishes tr) (JsMap.keys (ChildWriter.writers w)) ->
  forallb ChildWriter.quiet tr = true ->
  map ChildWriter.resultDevice
    (ChildWriter.results (ChildWriter.run EXIT_CODES w tr))
  = map ChildWriter.resultDevice (ChildWriter.results w)
    ++ ChildWriter.finishes tr /\
  filter ChildWriter.isDone
    (ChildWriter.emitted (ChildWriter.run EXIT_CODES w tr))
  = filter ChildWriter.isDone (ChildWriter.emitted w)
    ++ (if completes (JsMap.size (ChildWriter.writers w))
             (ChildWriter.finishes tr)
        then [ChildWriter.Done
                (ChildWriter.results (ChildWriter.run EXIT_CODES w tr))]
        else []) /\
  ChildWriter.exited (ChildWriter.run EXIT_CODES w tr)
  = if completes (JsMap.size (ChildWriter.writers w))
         (ChildWriter.finishes tr)
    then Some (ChildWriter.orSuccess EXIT_CODES (ChildWriter.exitCode w))
    else None.
Proof.
  revert w; induction tr as [|e tr IH]; intros w Hx Hw Hfs Hincl Hq.
  - cbn. rewrite !app_nil_r. auto.
  - cbn [forallb] in Hq. apply andb_prop in Hq. destruct Hq as [He Hq].
    change (ChildWriter.run EXIT_CODES w (e :: tr))
      with (ChildWriter.run EXIT_CODES (ChildWriter.deliver EXIT_CODES w e)
              tr).
    destruct e as [o|s|err|r| | | |]; try discriminate He.
    + (* progress *)
      cbn [ChildWriter.finishes] in *.
      rewrite deliver_progress by assumption.
      set (w1 := {| ChildWriter.exitCode := ChildWriter.exitCode w |}).
      destruct (IH w1 eq_refl Hw Hfs Hincl Hq) as (H1 & H2 & H3).
      rewrite H1, H2, H3. subst w1; cbn.
      rewrite filter_app; cbn. rewrite app_nil_r. auto.
    + (* finish *)
      cbn [ChildWriter.finishes] in *.
      change (ChildWriter.device (ChildWriter.drive r))
        with (ChildWriter.resultDevice r) in *.
      inversion Hfs as [|? ? Hnd Hfs']; subst.
      assert (Hd : In (ChildWriter.resultDevice r)
                      (JsMap.keys (ChildWriter.writers w)))
        by (apply Hincl; left; reflexivity).
      assert (Hsize :
        S (JsMap.size
             (JsMap.delete (ChildWriter.resultDevice r)
                (ChildWriter.writers w)))
        = JsMap.size (ChildWriter.writers w))
        by (apply size_delete_present; assumption).
      rewrite deliver_finish by assumption.
      change (ChildWriter.device (ChildWriter.drive r))
        with (ChildWriter.resultDevice r).
      set (ws := JsMap.delete (ChildWriter.resultDevice r)
                   (ChildWriter.writers w)) in *.
      assert (Hincl1 : incl (ChildWriter.finishes tr) (JsMap.keys ws)).
      { intros x Hin. apply in_keys_delete. split.
        - intros E; subst; contradiction.
        - apply Hincl; right; exact Hin. }
      rewrite <- Hsize. unfold completes. cbn [length].
      destruct (JsMap.size ws) as [|k] eqn:Ek.
      * assert (Hnil : ChildWriter.finishes tr = []).
        { destruct (ChildWriter.finishes tr) as [|x ts]; [reflexivity|].
          exfalso. assert (Hin : In x (JsMap.keys ws))
            by (apply Hincl1; left; reflexivity).
          rewrite size_keys in Ek.
          destruct (JsMap.keys ws); [contradiction|discriminate]. }
        rewrite Hnil. cbn [Nat.eqb].
        rewrite run_exited by (cbn; discriminate).
        cbn. rewrite !filter_app. cbn. rewrite map_app, app_nil_r. auto.
      * cbn [Nat.eqb].
        set (w1 := {| ChildWriter.exitCode := ChildWriter.exitCode w |}).
        assert (Hw1 : NoDup (JsMap.keys (ChildWriter.writers w1)))
          by (apply NoDup_keys_delete; assumption).
        destruct (IH w1 eq_refl Hw1 Hfs' Hincl1 Hq) as (H1 & H2 & H3).
        rewrite H1, H2, H3. subst w1.
        cbn [ChildWriter.results ChildWriter.emitted ChildWriter.writers
             ChildWriter.exitCode].
        rewrite Ek. unfold completes.
        rewrite !filter_app, map_app, <- app_assoc. cbn.
        rewrite app_nil_r.
        destruct (ChildWriter.finishes tr); cbn; rewrite ?app_nil_r; auto.
Qed.

(** The worker once the [write] listener has run. *)
Lemma deliver_write (options : ChildWriter.WriteOptions) :
  NoDup (ChildWriter.destinations options) ->
  let w0 := ChildWriter.deliver EXIT_CODES
              (ChildWriter.connected EXIT_CODES)
              (ChildWriter.EvWrite options) in
  ChildWriter.exited w0 = None /\
  JsMap.keys (ChildWriter.writers w0) = ChildWriter.destinations options /\
  ChildWriter.results w0 = [] /\
  ChildWriter.exitCode w0 = ExitCodes.SUCCESS EXIT_CODES /\
  filter ChildWriter.isDone (ChildWriter.emitted w0) = [].
Proof.
  intros Hnd w0. subst w0.
  split; [reflexivity|]. split; [|repeat split].
  exact (@keys_fold_set _
           (fun destination =>
              ImageWriter.make
                {| WriterOptions.path := destination;
                   WriterOptions.imagePath :=
                     ChildWriter.imagePath options;
                   WriterOptions.verify :=
                     ChildWriter.validateWriteOnSuccess options;
                   WriterOptions.unmountOnSuccess :=
                     ChildWriter.unmountOnSuccess options;
                   WriterOptions.checksumAlgorithms :=
                     ChildWriter.checksumAlgorithms options |})
           (ChildWriter.destinations options)
           (JsMap.empty ImageWriter.t) Hnd).
Qed.

End ChildWriterFanIn.

Section ChildWriterDone.
Variable EXIT_CODES : ExitCodes.t.

Lemma finishes_app (p q : list ChildWriter.Event) :
  ChildWriter.finishes (p ++ q)
  = ChildWriter.finishes p ++ ChildWriter.finishes q.
Proof.
  induction p as [|[o|s|err|r| | | |] p IH]; simpl; auto; f_equal; exact IH.
Qed.

Lemma orSuccess_SUCCESS :
  ChildWriter.orSuccess EXIT_CODES (ExitCodes.SUCCESS EXIT_CODES)
  = ExitCodes.SUCCESS EXIT_CODES.
Proof.
  unfold ChildWriter.orSuccess.
  destruct (ExitCodes.SUCCESS EXIT_CODES =? 0)%Z; reflexivity.
Qed.

(** The worker on a [write] command whose writers all finish: [done] goes
    out once, with the last [finish], carrying one result per destination
    in completion order, and the worker then exits with the success code;
    before that neither has happened. *)
Lemma worker_done_once (options : ChildWriter.WriteOptions)
    (tr : list ChildWriter.Event) :
  NoDup (ChildWriter.destinations options) ->
  ChildWriter.destinations options <> [] ->
  forallb ChildWriter.quiet tr = true ->
  Permutation (ChildWriter.finishes tr) (ChildWriter.destinations options) ->
  let start := fun tr' =>
    ChildWriter.run EXIT_CODES (ChildWriter.connected EXIT_CODES)
      (ChildWriter.EvWrite options :: tr') in
  filter ChildWriter.isDone (ChildWriter.emitted (start tr))
  = [ChildWriter.Done (ChildWriter.results (start tr))] /\
  map ChildWriter.resultDevice (ChildWriter.results (start tr))
  = ChildWriter.finishes tr /\
  ChildWriter.exited (start tr) = Some (ExitCodes.SUCCESS EXIT_CODES) /\
  (forall p q : list ChildWriter.Event,
     tr = p ++ q ->
     (exists d, In d (ChildWriter.destinations options) /\
                ~ In d (ChildWriter.finishes p)) ->
     filter ChildWriter.isDone (ChildWriter.emitted (start p)) = [] /\
     ChildWriter.exited (start p) = None).
Proof.
  intros Hnd Hne Hq Hperm start.
  destruct (deliver_write EXIT_CODES options Hnd)
    as (Hx & Hkeys & Hres & Hcode & Hdone).
  set (w0 := ChildWriter.deliver EXIT_CODES
               (ChildWriter.connected EXIT_CODES)
               (ChildWriter.EvWrite options)) in *.
  assert (Hstart : forall tr', start tr' = ChildWriter.run EXIT_CODES w0 tr')
    by reflexivity.
  assert (Hsize : JsMap.size (ChildWriter.writers w0)
                  = length (ChildWriter.destinations options))
    by (rewrite size_keys, Hkeys; reflexivity).
  assert (Hw0 : NoDup (JsMap.keys (ChildWriter.writers w0)))
    by (rewrite Hkeys; assumption).
  assert (Hfs : NoDup (ChildWriter.finishes tr))
    by (apply (Permutation_NoDup (Permutation_sym Hperm)); assumption).
  assert (Hincl : incl (ChildWriter.finishes tr)
                       (JsMap.keys (ChildWriter.writers w0))).
  { rewrite Hkeys. intros x Hin. apply (Permutation_in _ Hperm); exact Hin. }
  assert (Hall : completes (JsMap.size (ChildWriter.writers w0))
                   (ChildWriter.finishes tr) = true).
  { rewrite Hsize. unfold completes.
    rewrite (Permutation_length Hperm), Nat.eqb_refl.
    destruct (ChildWriter.destinations options); [congruence|reflexivity]. }
  destruct (worker_fan_in EXIT_CODES tr w0 Hx Hw0 Hfs Hincl Hq)
    as (H1 & H2 & H3).
  rewrite Hall in H2, H3. rewrite !Hstart.
  split; [rewrite H2, Hdone; reflexivity|].
  split; [rewrite H1, Hres; reflexivity|].
  split; [rewrite H3, Hcode, orSuccess_SUCCESS; reflexivity|].
  intros p q Htr (d & Hd & Hnot). subst tr.
  rewrite finishes_app in Hfs, Hincl.
  rewrite forallb_app in Hq. apply andb_prop in Hq. destruct Hq as [Hqp _].
  assert (Hp : NoDup (ChildWriter.finishes p))
    by (apply NoDup_app_remove_r in Hfs; exact Hfs).
  assert (Hpi : incl (ChildWriter.finishes p)
                     (JsMap.keys (ChildWriter.writers w0)))
    by (intros x Hin; apply Hincl, in_or_app; left; exact Hin).
  assert (Hlt : length (ChildWriter.finishes p)
                < length (ChildWriter.destinations options)).
  { apply (@NoDup_incl_length _ (d :: ChildWriter.finishes p)
             (ChildWriter.destinations options)).
    - constructor; assumption.
    - intros x [E|Hin]; [subst x; assumption|].
      rewrite <- Hkeys. apply Hpi; exact Hin. }
  assert (Hnot_all : completes (JsMap.size (ChildWriter.writers w0))
                       (ChildWriter.finishes p) = false).
  { rewrite Hsize. unfold completes.
    destruct (Nat.eqb_spec (length (ChildWriter.finishes p))
                (length (ChildWriter.destinations options))); [lia|].
    apply andb_false_r. }
  destruct (worker_fan_in EXIT_CODES p w0 Hx Hw0 Hp Hpi Hqp)
    as (_ & P2 & P3).
  rewrite Hnot_all in P2, P3. rewrite !Hstart.
  split; [rewrite P2, Hdone; reflexivity|exact P3].
Qed.

End ChildWriterDone.

(** C1, in the child writer.  With the destinations [/dev/a] and [/dev/b],
    once [/dev/a] has finished and the writer of [/dev/b] emits [error], the
    orchestration never resolves: the listener faults, the worker schedules
    its exit with the general-error code, the results hold the one entry of
    [/dev/a] for two destinations, and whatever is delivered afterwards no
    [done] is sent.  In the CLI the same run resolves once, with both
    entries. *)
Theorem C1_worker_never_resolves_after_an_error :
  forall post : list ChildWriter.Event,
    let w := Scenario.worker
               ([ChildWriter.EvWrite
                   (Scenario.write [Scenario.devA; Scenario.devB]);
                 ChildWriter.EvFinish (Scenario.result Scenario.devA "AAA");
                 ChildWriter.EvError Scenario.writeFailed] ++ post) in
    let c := Cli.run (Scenario.cli [Scenario.devA; Scenario.devB])
               [Cli.EvFinish (Scenario.writer Scenario.devA)
                  (Scenario.flashed "AAA");
                Cli.EvError (Scenario.writer Scenario.devB)
                  Scenario.writeFailed] in
    existsb ChildWriter.isDone (ChildWriter.emitted w) = false /\
    ChildWriter.results w = [Scenario.result Scenario.devA "AAA"] /\
    JsMap.keys (ChildWriter.writers w) = [Scenario.devB] /\
    ChildWriter.exited w = Some (ExitCodes.GENERAL_ERROR ExitCodes.upstream) /\
    Cli.resolveCalls c = [Cli.results c] /\
    map Cli.device (Cli.results c) = [Scenario.devA; Scenario.devB].
Proof.
  intros post w c. subst w. unfold Scenario.worker.
  rewrite worker_run_app.
  rewrite run_exited by (vm_compute; discriminate).
  repeat split; reflexivity.
Qed.

(* ------------------------------------------------------------------ *)
(** ** Device errors *)

(** In the CLI a device error is recorded and the device retired; the other
    devices keep their writers and their latest states, and nothing of the
    progress display changes. *)
Lemma cli_onError_isolated (c : Cli.Closure) (this : ImageWriter.t)
    (error : JsError.t) :
  let d := WriterOptions.path (ImageWriter.options this) in
  let c' := Cli.onError c this error in
  Cli.results c' = Cli.results c ++ [Cli.ResultError d error] /\
  Cli.writers c' = JsMap.delete d (Cli.writers c) /\
  Cli.states c' = JsMap.delete d (Cli.states c) /\
  (forall x, x <> d ->
     (In x (JsMap.keys (Cli.writers c')) <-> In x (JsMap.keys (Cli.writers c)))
     /\
     (In x (JsMap.keys (Cli.states c')) <-> In x (JsMap.keys (Cli.states c))))
  /\
  Cli.progress c' = Cli.progress c /\
  Cli.progressBars c' = Cli.progressBars c.
Proof.
  intros d c'. subst c'. unfold Cli.onError, Cli.settle.
  cbn [Cli.results Cli.writers Cli.states Cli.progress Cli.progressBars].
  fold d.
  split; [reflexivity|]. split; [reflexivity|]. split; [reflexivity|].
  split; [|split; reflexivity].
  intros x Hx. split; rewrite in_keys_delete; tauto.
Qed.

(** The three-device run of the design document in the CLI: [/dev/b] fails
    at 40 percent, [/dev/a] and [/dev/c] finish; the promise is resolved
    once, with the three entries in completion order. *)
Example cli_three_devices :
  let c := Cli.run (Scenario.cli [Scenario.devA; Scenario.devB; Scenario.devC])
             [Cli.EvProgress (Scenario.snapshot Scenario.devB "write" 40);
              Cli.EvError (Scenario.writer Scenario.devB) Scenario.writeFailed;
              Cli.EvFinish (Scenario.writer Scenario.devA)
                (Scenario.flashed "AAA");
              Cli.EvFinish (Scenario.writer Scenario.devC)
                (Scenario.flashed "CCC")] in
  Cli.results c
  = [Cli.ResultError Scenario.devB Scenario.writeFailed;
     Cli.ResultFlash Scenario.devA (Scenario.flashed "AAA");
     Cli.ResultFlash Scenario.devC (Scenario.flashed "CCC")] /\
  Cli.resolveCalls c = [Cli.results c].
Proof. split; reflexivity. Qed.

(** C2, in the child writer.  With the destinations [/dev/a] and [/dev/b],
    an [error] of [/dev/a] is not isolated: no entry is recorded for
    [/dev/a], its writer stays in the active set, no error message with the
    device attached goes out, the worker schedules its exit with the
    general-error code, the later [finish] of [/dev/b] is not served and
    [done] is never sent. *)
Theorem C2_worker_error_aborts_the_run :
  let w := Scenario.worker
             [ChildWriter.EvWrite
                (Scenario.write [Scenario.devA; Scenario.devB]);
              ChildWriter.EvProgress
                (Scenario.snapshot Scenario.devA "write" 40);
              ChildWriter.EvError Scenario.writeFailed;
              ChildWriter.EvFinish (Scenario.result Scenario.devB "BBB")] in
  ChildWriter.results w = [] /\
  JsMap.keys (ChildWriter.writers w) = [Scenario.devA; Scenario.devB] /\
  existsb ChildWriter.isDeviceError (ChildWriter.emitted w) = false /\
  existsb ChildWriter.isDone (ChildWriter.emitted w) = false /\
  ChildWriter.exited w = Some (ExitCodes.GENERAL_ERROR ExitCodes.upstream).
Proof. repeat split; reflexivity. Qed.

(** The spec's disconnect in mid-run: with one of three sessions finished,
    the worker schedules its exit with the success code, serves no later
    event and sends no [done]. *)
Example worker_disconnect_mid_run :
  let w := Scenario.worker
             [ChildWriter.EvWrite
                (Scenario.write [Scenario.devA; Scenario.devB; Scenario.devC]);
              ChildWriter.EvFinish (Scenario.result Scenario.devA "AAA");
              ChildWriter.EvDisconnect;
              ChildWriter.EvFinish (Scenario.result Scenario.devB "BBB");
              ChildWriter.EvFinish (Scenario.result Scenario.devC "CCC")] in
  ChildWriter.exited w = Some (ExitCodes.SUCCESS ExitCodes.upstream) /\
  ChildWriter.results w = [Scenario.result Scenario.devA "AAA"] /\
  existsb ChildWriter.isDone (ChildWriter.emitted w) = false.
Proof. repeat split; reflexivity. Qed.

(** C3.  In the child writer, the listener of a writer's [error] event logs
    the message, sets [exitCode] and then throws a [TypeError] on
    [this.destinationDevice.device], [this] being the module's own; it sends
    no error message of its own and does not reach [onFinish].  The reactor
    hands the fault to [handleError], which sends it as an [error] message
    without device and schedules the exit with the general-error code.  No
    run in which a writer's [error] reaches the running worker ever contains
    a [done] message. *)
Theorem C3_worker_error_listener_faults :
  forall (EXIT_CODES : ExitCodes.t) (w : ChildWriter.Worker)
         (error : JsError.t),
    ExitCodes.GENERAL_ERROR EXIT_CODES <> 0%Z ->
    ChildWriter.exited w = None ->
    let fault :=
      ChildWriter.TypeError "Cannot read property 'device' of undefined" in
    (snd (ChildWriter.onError EXIT_CODES error w) = ChildWriter.Throw fault /\
     ChildWriter.emitted (fst (ChildWriter.onError EXIT_CODES error w))
     = ChildWriter.emitted w ++ [ChildWriter.Log (JsError.message error)])
    /\
    (let w' := ChildWriter.deliver EXIT_CODES w (ChildWriter.EvError error) in
     ChildWriter.emitted w'
     = ChildWriter.emitted w
       ++ [ChildWriter.Log (JsError.message error);
           ChildWriter.ErrorMsg fault ChildWriter.JsUndefined] /\
     ChildWriter.exited w' = Some (ExitCodes.GENERAL_ERROR EXIT_CODES) /\
     ChildWriter.results w' = ChildWriter.results w /\
     ChildWriter.writers w' = ChildWriter.writers w)
    /\
    (forall pre post : list ChildWriter.Event,
       ChildWriter.exited
         (ChildWriter.run EXIT_CODES (ChildWriter.connected EXIT_CODES) pre)
       = None ->
       existsb ChildWriter.isDone
         (ChildWriter.emitted
            (ChildWriter.run EXIT_CODES (ChildWriter.connected EXIT_CODES)
               (pre ++ ChildWriter.EvError error :: post)))
       = false).
Proof.
  intros EXIT_CODES w error Hge Hx fault.
  assert (Hcode : ChildWriter.orSuccess EXIT_CODES
                    (ExitCodes.GENERAL_ERROR EXIT_CODES)
                  = ExitCodes.GENERAL_ERROR EXIT_CODES).
  { unfold ChildWriter.orSuccess.
    destruct (Z.eqb_spec (ExitCodes.GENERAL_ERROR EXIT_CODES) 0);
      [contradiction|reflexivity]. }
  split; [|split].
  - rewrite onError_throws. split; reflexivity.
  - cbv zeta. rewrite deliver_error by assumption. cbn.
    rewrite Hcode. repeat split.
  - intros pre post Hpre.
    rewrite worker_run_app.
    set (w1 := ChildWriter.run EXIT_CODES
                 (ChildWriter.connected EXIT_CODES) pre) in *.
    assert (Hnone : existsb ChildWriter.isDone (ChildWriter.emitted w1)
                    = false).
    { destruct (existsb ChildWriter.isDone (ChildWriter.emitted w1)) eqn:E;
        [|reflexivity].
      exfalso.
      apply (@run_doneThenExit EXIT_CODES pre
               (ChildWriter.connected EXIT_CODES)
               (@connected_doneThenExit EXIT_CODES) E).
      exact Hpre. }
    change (ChildWriter.run EXIT_CODES w1 (ChildWriter.EvError error :: post))
      with (ChildWriter.run EXIT_CODES
              (ChildWriter.deliver EXIT_CODES w1 (ChildWriter.EvError error))
              post).
    rewrite deliver_error by assumption.
    rewrite run_exited by (cbn; discriminate).
    cbn. rewrite existsb_app, Hnone. reflexivity.
Qed.

Lemma C3_worker_error_listener_faults_witness :
  let w := Scenario.worker
             [ChildWriter.EvWrite
                (Scenario.write [Scenario.devA; Scenario.devB])] in
  let w' := ChildWriter.deliver ExitCodes.upstream w
              (ChildWriter.EvError Scenario.writeFailed) in
  ExitCodes.GENERAL_ERROR ExitCodes.upstream <> 0%Z /\
  ChildWriter.exited w = None /\
  ChildWriter.exited w' = Some 1%Z /\
  ChildWriter.results w' = [].
Proof.
  intros w w'.
  assert (Hge : ExitCodes.GENERAL_ERROR ExitCodes.upstream <> 0%Z)
    by discriminate.
  assert (Hx : ChildWriter.exited w = None) by reflexivity.
  destruct (@C3_worker_error_listener_faults ExitCodes.upstream w
              Scenario.writeFailed Hge Hx)
    as (_ & (_ & H2 & H3 & _) & _).
  split; [exact Hge|]. split; [exact Hx|]. split; [exact H2|exact H3].
Defined.

(* ------------------------------------------------------------------ *)
(** ** The [state] messages of the child writer *)

Section ChildWriterState.
Variable EXIT_CODES : ExitCodes.t.

Lemma statePayloads_app (a b : list ChildWriter.Message) :
  ChildWriter.statePayloads (a ++ b)
  = ChildWriter.statePayloads a ++ ChildWriter.statePayloads b.
Proof.
  induction a as [|[|m|s|e d|rs] a IH]; simpl; auto; f_equal; exact IH.
Qed.

(** A worker that still runs after a run was running all along. *)
Lemma running_before (tr : list ChildWriter.Event) (w : ChildWriter.Worker) :
  ChildWriter.exited (ChildWriter.run EXIT_CODES w tr) = None ->
  ChildWriter.exited w = None.
Proof.
  intros H. destruct (ChildWriter.exited w) as [c|] eqn:E; [|reflexivity].
  rewrite run_exited in H by congruence. congruence.
Qed.

(** While the worker runs, the [state] messages are the state objects of
    the [progress] events, one for one and in order. *)
Lemma state_messages_running (tr : list ChildWriter.Event)
    (w : ChildWriter.Worker) :
  ChildWriter.exited (ChildWriter.run EXIT_CODES w tr) = None ->
  ChildWriter.statePayloads
    (ChildWriter.emitted (ChildWriter.run EXIT_CODES w tr))
  = ChildWriter.statePayloads (ChildWriter.emitted w)
    ++ ChildWriter.progressStates tr.
Proof.
  revert w; induction tr as [|e tr IH]; intros w Hrun.
  - simpl. symmetry; apply app_nil_r.
  - change (ChildWriter.run EXIT_CODES w (e :: tr))
      with (ChildWriter.run EXIT_CODES (ChildWriter.deliver EXIT_CODES w e) tr)
      in *.
    pose proof (running_before _ _ Hrun) as H1.
    pose proof (running_before [e] w H1) as H0.
    rewrite (IH _ Hrun).
    destruct e as [o|s|err|r| | | |].
    + unfold ChildWriter.deliver. rewrite H0. cbn.
      rewrite !statePayloads_app. cbn. rewrite !app_nil_r. reflexivity.
    + rewrite deliver_progress by assumption. cbn.
      rewrite statePayloads_app, <- app_assoc. reflexivity.
    + rewrite deliver_error in H1 by assumption. discriminate H1.
    + rewrite deliver_finish by assumption. cbn.
      rewrite !statePayloads_app. cbn.
      destruct (JsMap.size _ =? 0); cbn; rewrite !app_nil_r; reflexivity.
    + exfalso. eapply deliver_abort; eauto.
    + exfalso. eapply deliver_abort; eauto.
    + exfalso. eapply deliver_abort; eauto.
    + exfalso. eapply deliver_abort; eauto.
Qed.

End ChildWriterState.

(** C4, as the program has it.  The child writer keeps no map of latest
    states and computes no combined snapshot: for every [progress] event the
    running worker serves, the [state] message carries the state object of
    the emitting writer as it came; over a run that leaves the worker
    running, the [state] payloads are the state objects of the [progress]
    events, one for one and in order. *)
Theorem C4_worker_forwards_the_device_state :
  forall (EXIT_CODES : ExitCodes.t) (w : ChildWriter.Worker)
         (tr : list ChildWriter.Event) (state : State.t),
    ChildWriter.exited (ChildWriter.run EXIT_CODES w tr) = None ->
    let w1 := ChildWriter.run EXIT_CODES w tr in
    ChildWriter.emitted
      (ChildWriter.deliver EXIT_CODES w1 (ChildWriter.EvProgress state))
    = ChildWriter.emitted w1 ++ [ChildWriter.StateMsg state] /\
    ChildWriter.statePayloads (ChildWriter.emitted w1)
    = ChildWriter.statePayloads (ChildWriter.emitted w)
      ++ ChildWriter.progressStates tr.
Proof.
  intros EXIT_CODES w tr state Hrun w1. split.
  - subst w1. rewrite deliver_progress by assumption. reflexivity.
  - apply state_messages_running; assumption.
Qed.

Lemma C4_worker_forwards_the_device_state_witness :
  let sA := Scenario.snapshot Scenario.devA "write" 10 in
  let sB := Scenario.snapshot Scenario.devB "check" 50 in
  ChildWriter.statePayloads
    (ChildWriter.emitted
       (Scenario.worker
          [ChildWriter.EvWrite (Scenario.write [Scenario.devA; Scenario.devB]);
           ChildWriter.EvProgress sA; ChildWriter.EvProgress sB]))
  = [sA; sB].
Proof.
  intros sA sB.
  refine (proj2
            (@C4_worker_forwards_the_device_state ExitCodes.upstream
               (ChildWriter.connected ExitCodes.upstream)
               [ChildWriter.EvWrite
                  (Scenario.write [Scenario.devA; Scenario.devB]);
                ChildWriter.EvProgress sA; ChildWriter.EvProgress sB]
               sA _)).
  reflexivity.
Defined.

(** C4 as stated fails: with two active sessions, [/dev/a] writing at 10
    percent and [/dev/b] checking at 50 percent, the second [state] message
    is the state of [/dev/b] itself, in phase ["check"] at 50 percent, while
    the aggregated snapshot of the two is in phase ["write"] at 30
    percent. *)
Lemma C4_state_payload_is_not_the_aggregate :
  let sA := Scenario.snapshot Scenario.devA "write" 10 in
  let sB := Scenario.snapshot Scenario.devB "check" 50 in
  let w := Scenario.worker
             [ChildWriter.EvWrite
                (Scenario.write [Scenario.devA; Scenario.devB]);
              ChildWriter.EvProgress sA; ChildWriter.EvProgress sB] in
  let aggregated :=
    Reference.aggregated
      (JsMap.set Scenario.devB sB
         (JsMap.set Scenario.devA sA (JsMap.empty State.t))) in
  ChildWriter.statePayloads (ChildWriter.emitted w) = [sA; sB] /\
  Progress.percentage aggregated =j= JsNum.Fin 30 /\
  Progress.type aggregated = "write" /\
  ~ (State.percentage sB =j= Progress.percentage aggregated) /\
  State.type sB <> Progress.type aggregated.
Proof.
  cbv zeta. split; [reflexivity|].
  split; [vm_compute; reflexivity|].
  split; [reflexivity|].
  split; [vm_compute; discriminate|].
  vm_compute; discriminate.
Qed.

(* ------------------------------------------------------------------ *)
(** ** Late and repeated events in the CLI *)

Section CliOrdering.

Lemma not_seen (d : string) (seen : list string) :
  existsb (String.eqb d) seen = false <-> ~ In d seen.
Proof.
  split.
  - intros H Hin.
    assert (E : existsb (String.eqb d) seen = true).
    { apply existsb_exists. exists d. split; [exact Hin|apply String.eqb_refl]. }
    congruence.
  - intros H. destruct (existsb (String.eqb d) seen) eqn:E; [|reflexivity].
    exfalso. apply existsb_exists in E. destruct E as (x & Hin & Hx).
    apply String.eqb_eq in Hx. subst x. contradiction.
Qed.

(** Under the writers' ordering, the devices with a terminal event stay out
    of the map of latest states. *)
Lemma ordered_run_states (tr : list Cli.Event) (seen : list string)
    (c : Cli.Closure) :
  Cli.ordered seen tr = true ->
  (forall d, In d seen -> ~ In d (JsMap.keys (Cli.states c))) ->
  forall d, In d seen \/ In d (Cli.terminals tr) ->
            ~ In d (JsMap.keys (Cli.states (Cli.run c tr))).
Proof.
  revert seen c; induction tr as [|e tr IH]; intros seen c Hord Hseen d Hd.
  - simpl in *. destruct Hd as [Hd|[]]. apply Hseen; exact Hd.
  - change (Cli.run c (e :: tr)) with (Cli.run (Cli.step c e) tr).
    destruct e as [s|w err|w s].
    + cbn [Cli.ordered Cli.terminals] in *.
      apply andb_prop in Hord. destruct Hord as [Hnew Hord].
      apply negb_true_iff, not_seen in Hnew.
      apply (IH seen (Cli.step c (Cli.EvProgress s)) Hord); [|exact Hd].
      intros x Hx Hin. cbn in Hin.
      apply in_keys_set in Hin. destruct Hin as [E|Hin].
      * subst x. contradiction.
      * exact (Hseen x Hx Hin).
    + cbn [Cli.ordered Cli.terminals] in *.
      apply (IH _ (Cli.step c (Cli.EvError w err)) Hord).
      * intros x Hx Hin. cbn in Hin. apply in_keys_delete in Hin.
        destruct Hin as [Hne Hin]. destruct Hx as [E|Hx];
          [congruence|exact (Hseen x Hx Hin)].
      * simpl in Hd. simpl. tauto.
    + cbn [Cli.ordered Cli.terminals] in *.
      apply (IH _ (Cli.step c (Cli.EvFinish w s)) Hord).
      * intros x Hx Hin. cbn in Hin. apply in_keys_delete in Hin.
        destruct Hin as [Hne Hin]. destruct Hx as [E|Hx];
          [congruence|exact (Hseen x Hx Hin)].
      * simpl in Hd. simpl. tauto.
Qed.

End CliOrdering.

(** C6, as the program has it.  [onProgress] has no guard: it stores every
    state it is given.  What keeps a terminated device out of the
    aggregation is its terminal event, which deletes its entry, together
    with the writers' ordering: after any run in which no [progress] of a
    device follows a terminal event of that device, no device with a
    terminal event is in the map of latest states. *)
Theorem C6_terminated_devices_leave_the_map :
  forall (c : Cli.Closure) (tr : list Cli.Event) (d : string),
    Cli.ordered [] tr = true ->
    In d (Cli.terminals tr) ->
    JsMap.has d (Cli.states (Cli.run c tr)) = false.
Proof.
  intros c tr d Hord Hd.
  destruct (JsMap.has d (Cli.states (Cli.run c tr))) eqn:E; [|reflexivity].
  exfalso. apply has_in in E. revert E.
  apply (@ordered_run_states tr [] c Hord); [|right; exact Hd].
  intros x [].
Qed.

Lemma C6_terminated_devices_leave_the_map_witness :
  JsMap.has Scenario.devA
    (Cli.states
       (Cli.run (Scenario.cli [Scenario.devA; Scenario.devB])
          [Cli.EvProgress (Scenario.snapshot Scenario.devA "write" 50);
           Cli.EvProgress (Scenario.snapshot Scenario.devB "write" 20);
           Cli.EvFinish (Scenario.writer Scenario.devA)
             (Scenario.flashed "AAA");
           Cli.EvProgress (Scenario.snapshot Scenario.devB "write" 30)]))
  = false.
Proof.
  apply C6_terminated_devices_leave_the_map.
  - reflexivity.
  - simpl. left. reflexivity.
Defined.

(** C6 as stated fails: a [progress] of [/dev/a] delivered after the
    [finish] of [/dev/a] is served like any other; [/dev/a] is back in the
    map of latest states and a snapshot over it goes to the progress bar. *)
Lemma C6_late_progress_is_processed :
  let late := Scenario.snapshot Scenario.devA "write" 60 in
  let before :=
    Cli.run (Scenario.cli [Scenario.devA; Scenario.devB])
      [Cli.EvProgress (Scenario.snapshot Scenario.devA "write" 50);
       Cli.EvFinish (Scenario.writer Scenario.devA) (Scenario.flashed "AAA")]
  in
  let after := Cli.step before (Cli.EvProgress late) in
  JsMap.has Scenario.devA (Cli.states before) = false /\
  JsMap.has Scenario.devA (Cli.states after) = true /\
  Cli.states after = [(Scenario.devA, late)] /\
  length (Cli.progressBars after) = S (length (Cli.progressBars before)).
Proof. repeat split; reflexivity. Qed.

(** C7, as the program has it.  Neither listener remembers which devices
    are terminal.  A terminal event for a device that is no longer active
    leaves the active set as it is but appends a further entry for the
    device to the results, and [resolve] is called again whenever the active
    set is empty.  The results count every device once in the runs in which
    each device has at most one terminal event, which is the writers'
    contract. *)
Theorem C7_repeated_terminal_event_is_recorded_again :
  forall (c : Cli.Closure) (this : ImageWriter.t) (error : JsError.t)
         (state : Cli.FlashState),
    let d := WriterOptions.path (ImageWriter.options this) in
    ~ In d (JsMap.keys (Cli.writers c)) ->
    (Cli.writers (Cli.onError c this error) = Cli.writers c /\
     Cli.results (Cli.onError c this error)
     = Cli.results c ++ [Cli.ResultError d error] /\
     Cli.resolveCalls (Cli.onError c this error)
     = Cli.resolveCalls c
       ++ (if JsMap.size (Cli.writers c) =? 0
           then [Cli.results c ++ [Cli.ResultError d error]] else []))
    /\
    (Cli.writers (Cli.onFinish c this state) = Cli.writers c /\
     Cli.results (Cli.onFinish c this state)
     = Cli.results c ++ [Cli.ResultFlash d state] /\
     Cli.resolveCalls (Cli.onFinish c this state)
     = Cli.resolveCalls c
       ++ (if JsMap.size (Cli.writers c) =? 0
           then [Cli.results c ++ [Cli.ResultFlash d state]] else []))
    /\
    (forall tr : list Cli.Event,
       NoDup (map Cli.device (Cli.results c) ++ Cli.terminals tr) ->
       NoDup (map Cli.device (Cli.results (Cli.run c tr)))).
Proof.
  intros c this error state d Hd.
  assert (Hdel : JsMap.delete d (Cli.writers c) = Cli.writers c)
    by (apply delete_absent; exact Hd).
  split; [|split].
  - unfold Cli.onError, Cli.settle.
    cbn [Cli.results Cli.writers Cli.resolveCalls]. fold d. rewrite Hdel.
    repeat split.
    destruct (JsMap.size (Cli.writers c) =? 0);
      [reflexivity|symmetry; apply app_nil_r].
  - unfold Cli.onFinish, Cli.settle.
    cbn [Cli.results Cli.writers Cli.resolveCalls]. fold d. rewrite Hdel.
    repeat split.
    destruct (JsMap.size (Cli.writers c) =? 0);
      [reflexivity|symmetry; apply app_nil_r].
  - intros tr Hnd. rewrite run_results. exact Hnd.
Qed.

Lemma C7_repeated_terminal_event_is_recorded_again_witness :
  let c := Cli.run (Scenario.cli [Scenario.devA; Scenario.devB])
             [Cli.EvFinish (Scenario.writer Scenario.devA)
                (Scenario.flashed "AAA")] in
  Cli.results
    (Cli.onFinish c (Scenario.writer Scenario.devA) (Scenario.flashed "AAA"))
  = Cli.results c
    ++ [Cli.ResultFlash Scenario.devA (Scenario.flashed "AAA")].
Proof.
  intros c.
  refine (proj1 (proj2 (proj1 (proj2
    (@C7_repeated_terminal_event_is_recorded_again c
       (Scenario.writer Scenario.devA) Scenario.writeFailed
       (Scenario.flashed "AAA") _))))).
  simpl. intros [E|[]]. discriminate E.
Defined.

(** C7 as stated fails: a second [finish] of [/dev/a] is recorded again.
    With two drives the results hold [/dev/a] twice and the promise is then
    resolved with three entries; with [/dev/a] alone [resolve] is called a
    second time, the array now holding two entries; in the child writer the
    [done] message carries [/dev/a] twice. *)
Lemma C7_second_finish_is_counted_twice :
  let finishA := Cli.EvFinish (Scenario.writer Scenario.devA)
                   (Scenario.flashed "AAA") in
  let finishB := Cli.EvFinish (Scenario.writer Scenario.devB)
                   (Scenario.flashed "BBB") in
  let two := Cli.run (Scenario.cli [Scenario.devA; Scenario.devB])
               [finishA; finishA; finishB] in
  let one := Cli.run (Scenario.cli [Scenario.devA]) [finishA; finishA] in
  let w := Scenario.worker
             [ChildWriter.EvWrite
                (Scenario.write [Scenario.devA; Scenario.devB]);
              ChildWriter.EvFinish (Scenario.result Scenario.devA "AAA");
              ChildWriter.EvFinish (Scenario.result Scenario.devA "AAA");
              ChildWriter.EvFinish (Scenario.result Scenario.devB "BBB")] in
  map Cli.device (Cli.results two)
  = [Scenario.devA; Scenario.devA; Scenario.devB] /\
  Cli.resolveCalls two = [Cli.results two] /\
  map (map Cli.device) (Cli.resolveCalls one)
  = [[Scenario.devA]; [Scenario.devA; Scenario.devA]] /\
  filter ChildWriter.isDone (ChildWriter.emitted w)
  = [ChildWriter.Done
       [Scenario.result Scenario.devA "AAA";
        Scenario.result Scenario.devA "AAA";
        Scenario.result Scenario.devB "BBB"]].
Proof. repeat split; reflexivity. Qed.

(* ------------------------------------------------------------------ *)
(** ** The numbers of the aggregated snapshot *)

Section AggregateNumbers.

Lemma Forall_values_set (P : State.t -> Prop) (k : string) (v : State.t)
    (m : JsMap.t State.t) :
  Forall P (JsMap.values m) -> P v -> Forall P (JsMap.values (JsMap.set k v m)).
Proof.
  unfold JsMap.values. induction m as [|[k' v'] m IH]; simpl; intros Hm Hv.
  - constructor; [exact Hv|constructor].
  - inversion Hm; subst. destruct (String.eqb k k'); simpl.
    + constructor; assumption.
    + constructor; [assumption|apply IH; assumption].
Qed.

(** A map that holds one entry right after [set] holds the entry set. *)
Lemma set_size_one (k : string) (v : State.t) (m : JsMap.t State.t) :
  JsMap.size (JsMap.set k v m) = 1 -> JsMap.set k v m = [(k, v)].
Proof.
  unfold JsMap.size. destruct m as [|[k' v'] m]; simpl; [reflexivity|].
  destruct (String.eqb k k'); simpl.
  - destruct m; [reflexivity|discriminate].
  - intros H. exfalso. injection H as H.
    pose proof (size_set_pos k v m) as Hp. unfold JsMap.size in Hp.
    rewrite H in Hp. inversion Hp.
Qed.

Lemma add_zero_r (a : JsNum.t) : JsNum.add a JsNum.zero =j= a.
Proof. destruct a; simpl; auto. ring. Qed.

(** The mean of a field over a map of one entry is the field of the
    entry. *)
Lemma meanOf_single (field : State.t -> JsNum.t) (k : string) (s : State.t) :
  Reference.meanOf field [(k, s)] =j= field s.
Proof.
  unfold Reference.meanOf, JsNum.mean; simpl.
  eapply jeq_trans; [apply div_proper_l, add_zero_r|].
  apply (div_one (field s)).
Qed.

End AggregateNumbers.


(** C9.  When the stored state of every device and the state of the event
    have a percentage within [[0, 100]] and a speed and an eta that are not
    negative, so has the aggregated snapshot; and when the map then holds a
    single device, every numeric field of the aggregated snapshot is that
    of the device's own state. *)
Theorem C9_aggregate_in_range :
  forall (c : Cli.Closure) (state : State.t),
    Forall State.inRange (JsMap.values (Cli.states c)) ->
    State.inRange state ->
    let p := Cli.progress (Cli.onProgress c state) in
    (JsNum.between 0 100 (Progress.percentage p) /\
     JsNum.nonneg (Progress.speed p) /\
     JsNum.nonneg (Progress.eta p))
    /\
    (JsMap.size (Cli.states (Cli.onProgress c state)) = 1 ->
     Progress.delta p =j= State.delta state /\
     Progress.transferred p =j= State.transferred state /\
     Progress.percentage p =j= State.percentage state /\
     Progress.remaining p =j= State.remaining state /\
     Progress.runtime p =j= State.runtime state /\
     Progress.speed p =j= State.speed state /\
     Progress.eta p =j= State.eta state).
Proof.
  intros c state Hs Hst p.
  set (m := JsMap.set (State.device state) state (Cli.states c)).
  assert (Hp : Progress.equiv p (Reference.aggregated m))
    by apply aggregate_reference.
  destruct Hp as (_ & Hdelta & Htransferred & Hpercentage & Hremaining
                  & Hruntime & Hspeed & Heta).
  cbn [Reference.aggregated Progress.delta Progress.transferred
       Progress.percentage Progress.remaining Progress.runtime
       Progress.speed Progress.eta] in *.
  assert (Hm : Forall State.inRange (JsMap.values m))
    by (apply Forall_values_set; assumption).
  assert (Hne : forall field : State.t -> JsNum.t,
            map field (JsMap.values m) <> []).
  { intros field E. apply map_eq_nil in E.
    unfold JsMap.values in E. apply map_eq_nil in E.
    exact (set_not_nil _ _ _ E). }
  split.
  - split; [|split].
    + eapply between_proper; [apply jeq_sym; exact Hpercentage|].
      apply mean_between; [apply Hne|].
      apply Forall_map. revert Hm. apply Forall_impl.
      unfold State.inRange; tauto.
    + eapply nonneg_proper; [apply jeq_sym; exact Hspeed|].
      apply mean_nonneg; [apply Hne|].
      apply Forall_map. revert Hm. apply Forall_impl.
      unfold State.inRange; tauto.
    + eapply nonneg_proper; [apply jeq_sym; exact Heta|].
      apply mean_nonneg; [apply Hne|].
      apply Forall_map. revert Hm. apply Forall_impl.
      unfold State.inRange; tauto.
  - intros Hone.
    assert (E : m = [(State.device state, state)])
      by (apply set_size_one; exact Hone).
    rewrite E in *.
    repeat split;
      (eapply jeq_trans; [eassumption|apply meanOf_single]).
Qed.

Lemma C9_aggregate_in_range_witness :
  let state := Scenario.snapshot Scenario.devB "check" 100 in
  let c := Cli.run (Scenario.cli [Scenario.devA; Scenario.devB])
             [Cli.EvProgress (Scenario.snapshot Scenario.devA "write" 31)] in
  JsNum.between 0 100
    (Progress.percentage (Cli.progress (Cli.onProgress c state))).
Proof.
  intros state c.
  refine (proj1 (proj1 (@C9_aggregate_in_range c state _ _))).
  - repeat constructor; simpl; unfold Qle; simpl; lia.
  - repeat constructor; simpl; unfold Qle; simpl; lia.
Defined.

(* ------------------------------------------------------------------ *)
(** ** The exit code of the CLI *)

Section CliExitCode.
Variable EXIT_CODES : ExitCodes.t.

Lemma report_exitCode (results : list Cli.Result) (lines : list string)
    (code : Z) :
  snd (fold_left
         (fun (acc : list string * Z) result =>
            let (lines, exitCode) := acc in
            match result with
            | Cli.ResultError device error =>
                (lines ++ [("  - " ++ device ++ ": "
                            ++ JsError.message error)%string],
                 ExitCodes.GENERAL_ERROR EXIT_CODES)
            | Cli.ResultFlash device flash =>
                (lines ++ [("  - " ++ device ++ ": "
                            ++ Cli.crc32 (Cli.checksum flash))%string],
                 exitCode)
            end)
         results (lines, code))
  = if existsb Cli.isError results
    then ExitCodes.GENERAL_ERROR EXIT_CODES else code.
Proof.
  revert lines code; induction results as [|[d e|d f] results IH];
    intros lines code; cbn [fold_left existsb Cli.isError orb].
  - reflexivity.
  - rewrite IH. destruct (existsb Cli.isError results); reflexivity.
  - apply IH.
Qed.

End CliExitCode.

(** C10, as the program has it.  When the orchestration resolves, the CLI
    exits with the success code if no result carries an error and with the
    general-error code as soon as one device failed.  When the chain is
    rejected it exits with the validation-error code if the error's [code]
    is ["EVALIDATION"] and with the general-error code otherwise. *)
Theorem C10_exit_code_of_the_cli :
  forall (EXIT_CODES : ExitCodes.t) (results : list Cli.Result)
         (error : JsError.t),
    Cli.exitCode EXIT_CODES (Cli.Resolved results)
    = (if existsb Cli.isError results
       then ExitCodes.GENERAL_ERROR EXIT_CODES
       else ExitCodes.SUCCESS EXIT_CODES) /\
    Cli.exitCode EXIT_CODES (Cli.Rejected error)
    = (if match JsError.code error with
          | Some code => String.eqb code "EVALIDATION"
          | None => false
          end
       then ExitCodes.VALIDATION_ERROR EXIT_CODES
       else ExitCodes.GENERAL_ERROR EXIT_CODES).
Proof.
  intros EXIT_CODES results error. split.
  - unfold Cli.exitCode, Cli.report. apply report_exitCode.
  - unfold Cli.exitCode, Cli.rejected.
    destruct (JsError.code error) as [code|]; reflexivity.
Qed.

(** C10 as stated fails: the run of [/dev/a] and [/dev/b] in which
    [/dev/a] fails resolves, and the CLI exits with the general-error code,
    1 in the upstream table, not with 0. *)
Lemma C10_failed_device_exit_code :
  let c := Cli.run (Scenario.cli [Scenario.devA; Scenario.devB])
             [Cli.EvError (Scenario.writer Scenario.devA) Scenario.writeFailed;
              Cli.EvFinish (Scenario.writer Scenario.devB)
                (Scenario.flashed "BBB")] in
  Cli.resolveCalls c = [Cli.results c] /\
  Cli.exitCode ExitCodes.upstream (Cli.Resolved (Cli.results c)) = 1%Z /\
  Cli.exitCode ExitCodes.upstream (Cli.Resolved (Cli.results c))
  <> ExitCodes.SUCCESS ExitCodes.upstream.
Proof. repeat split; try reflexivity. discriminate. Qed.

(* ------------------------------------------------------------------ *)
(** ** More on the progress aggregation of the CLI *)

Section AggregationMore.

(** Every numeric field of the recomputed [progress]: the sum of the field
    over the map from the oldest entry on, divided by the size of the map. *)
Lemma aggregate_field (m : JsMap.t State.t) (p : Progress.t)
    (name : string) (fs : State.t -> JsNum.t) (fp : Progress.t -> JsNum.t) :
  In (name, fs, fp) Cli.fields ->
  fp (Cli.aggregate m p)
  = JsNum.div (fold_left JsNum.add (map fs (JsMap.values m)) JsNum.zero)
      (JsNum.of_nat (JsMap.size m)).
Proof.
  intros Hin. unfold Cli.aggregate. rewrite forEach_sumState.
  unfold Cli.fields in Hin. simpl in Hin.
  repeat (destruct Hin as [E|Hin];
          [injection E as _ <- <-; reflexivity|]).
  contradiction.
Qed.

Lemma aggregate_type (m : JsMap.t State.t) (p : Progress.t) :
  Progress.type (Cli.aggregate m p)
  = if 0 <? Reference.writingCount m then "write" else "check".
Proof.
  unfold Cli.aggregate. rewrite forEach_sumState. reflexivity.
Qed.

Lemma aggregate_stateless (m : JsMap.t State.t) (p p' : Progress.t) :
  Cli.aggregate m p = Cli.aggregate m p'.
Proof.
  unfold Cli.aggregate. rewrite !forEach_sumState. reflexivity.
Qed.

Lemma set_set (V : Type) (k : string) (v1 v2 : V) (m : JsMap.t V) :
  JsMap.set k v2 (JsMap.set k v1 m) = JsMap.set k v2 m.
Proof.
  induction m as [|[k' v'] m IH]; simpl.
  - rewrite String.eqb_refl. reflexivity.
  - destruct (String.eqb k k') eqn:E; simpl.
    + rewrite String.eqb_refl. reflexivity.
    + rewrite E. f_equal. exact IH.
Qed.

(** A [NaN] among the summands makes the sum [NaN]. *)
Lemma fold_add_NaN (l : list JsNum.t) (a : JsNum.t) :
  a = JsNum.NaN \/ In JsNum.NaN l -> fold_left JsNum.add l a = JsNum.NaN.
Proof.
  revert a; induction l as [|x l IH]; intros a H; simpl.
  - destruct H as [H|[]]. exact H.
  - apply IH. destruct H as [H|[H|H]].
    + left. subst a. reflexivity.
    + left. subst x. destruct a; reflexivity.
    + right. exact H.
Qed.

End AggregationMore.

(** X1.  The snapshot [onProgress] computes depends on the map of latest
    states alone: whatever the [progress] object held before, its phase and
    its numbers are recomputed from the entries of the map. *)
Theorem X1_snapshot_depends_on_the_map_alone :
  forall (c c' : Cli.Closure) (state : State.t),
    Cli.states c = Cli.states c' ->
    Cli.progress (Cli.onProgress c state)
    = Cli.progress (Cli.onProgress c' state).
Proof.
  intros c c' state H. unfold Cli.onProgress. cbn [Cli.progress].
  rewrite H. apply aggregate_stateless.
Qed.

Lemma X1_snapshot_depends_on_the_map_alone_witness :
  let s := Scenario.snapshot Scenario.devA "write" 50 in
  let c := Scenario.cli [Scenario.devA] in
  let c' := Cli.run (Scenario.cli [Scenario.devA; Scenario.devB])
              [Cli.EvProgress (Scenario.snapshot Scenario.devB "check" 70);
               Cli.EvFinish (Scenario.writer Scenario.devB)
                 (Scenario.flashed "BBB")] in
  Cli.progress (Cli.onProgress c s) = Cli.progress (Cli.onProgress c' s).
Proof.
  intros s c c'.
  apply X1_snapshot_depends_on_the_map_alone. reflexivity.
Defined.

(** X2.  Only the latest state of a device counts: a [progress] event
    replaces the state an earlier [progress] event of the same device left
    in the map, and the snapshot is the one the second event alone would
    have given. *)
Theorem X2_latest_state_of_a_device_wins :
  forall (c : Cli.Closure) (s1 s2 : State.t),
    State.device s1 = State.device s2 ->
    Cli.states (Cli.onProgress (Cli.onProgress c s1) s2)
    = Cli.states (Cli.onProgress c s2) /\
    Cli.progress (Cli.onProgress (Cli.onProgress c s1) s2)
    = Cli.progress (Cli.onProgress c s2).
Proof.
  intros c s1 s2 H.
  assert (E : Cli.states (Cli.onProgress (Cli.onProgress c s1) s2)
              = Cli.states (Cli.onProgress c s2)).
  { unfold Cli.onProgress. cbn [Cli.states]. rewrite H. apply set_set. }
  split; [exact E|].
  unfold Cli.onProgress in *. cbn [Cli.progress Cli.states] in *.
  rewrite E. apply aggregate_stateless.
Qed.

Lemma X2_latest_state_of_a_device_wins_witness :
  let c := Cli.run (Scenario.cli [Scenario.devA; Scenario.devB])
             [Cli.EvProgress (Scenario.snapshot Scenario.devB "write" 5)] in
  let s1 := Scenario.snapshot Scenario.devA "write" 10 in
  let s2 := Scenario.snapshot Scenario.devA "check" 90 in
  Cli.progress (Cli.onProgress (Cli.onProgress c s1) s2)
  = Cli.progress (Cli.onProgress c s2).
Proof.
  intros c s1 s2.
  refine (proj2 (@X2_latest_state_of_a_device_wins c s1 s2 _)).
  reflexivity.
Defined.

(** X3.  Every [progress] event hands exactly one snapshot to a progress
    bar and the terminal events hand none; the bar is the one named by the
    snapshot's own type, which is always ["write"] or ["check"], the two
    bars there are. *)
Theorem X3_one_bar_update_per_progress_event :
  forall (c : Cli.Closure) (tr : list Cli.Event),
    exists updates : list (string * Progress.t),
      Cli.progressBars (Cli.run c tr) = Cli.progressBars c ++ updates /\
      length updates = length (Cli.progressDevices tr) /\
      Forall Cli.barOfItsType updates.
Proof.
  intros c tr. revert c; induction tr as [|e tr IH]; intros c.
  - exists []. simpl. rewrite app_nil_r. auto.
  - change (Cli.run c (e :: tr)) with (Cli.run (Cli.step c e) tr).
    destruct (IH (Cli.step c e)) as (us & H1 & H2 & H3).
    destruct e as [s|w err|w s].
    + exists ((Progress.type (Cli.progress (Cli.onProgress c s)),
               Cli.progress (Cli.onProgress c s)) :: us).
      rewrite H1. cbn [Cli.step Cli.onProgress Cli.progressBars Cli.progress].
      rewrite <- app_assoc. split; [reflexivity|].
      split; [simpl; f_equal; exact H2|].
      constructor; [|exact H3].
      split; [reflexivity|]. cbn [fst]. rewrite aggregate_type.
      destruct (0 <? _); auto.
    + exists us. rewrite H1. auto.
    + exists us. rewrite H1. auto.
Qed.

(** X5.  Nothing filters what a writer reports: as soon as one state in
    the map has [NaN] in a field, the snapshot has [NaN] in that field, for
    every numeric field. *)
Theorem X5_NaN_of_one_device_reaches_the_snapshot :
  forall (c : Cli.Closure) (state s : State.t)
         (name : string) (fs : State.t -> JsNum.t)
         (fp : Progress.t -> JsNum.t),
    In (name, fs, fp) Cli.fields ->
    In s (JsMap.values (Cli.states (Cli.onProgress c state))) ->
    fs s = JsNum.NaN ->
    fp (Cli.progress (Cli.onProgress c state)) = JsNum.NaN.
Proof.
  intros c state s name fs fp Hin Hs Hnan.
  unfold Cli.onProgress in *. cbn [Cli.progress Cli.states] in *.
  rewrite (aggregate_field _ (Cli.progress c) Hin).
  rewrite fold_add_NaN; [reflexivity|].
  right. rewrite <- Hnan. apply in_map. exact Hs.
Qed.

Lemma X5_NaN_of_one_device_reaches_the_snapshot_witness :
  let c := Cli.run (Scenario.cli [Scenario.devA; Scenario.devB])
             [Cli.EvProgress (Scenario.snapshot Scenario.devA "write" 30)] in
  let state :=
    {| State.device := Scenario.devB;
       State.type := "write";
       State.delta := JsNum.Fin 1;
       State.transferred := JsNum.Fin 10;
       State.percentage := JsNum.Fin 10;
       State.remaining := JsNum.Fin 90;
       State.runtime := JsNum.Fin 4;
       State.speed := JsNum.Fin 2;
       State.eta := JsNum.NaN |} in
  Progress.eta (Cli.progress (Cli.onProgress c state)) = JsNum.NaN.
Proof.
  intros c state.
  apply (@X5_NaN_of_one_device_reaches_the_snapshot c state state
           "eta" State.eta Progress.eta).
  - simpl. tauto.
  - simpl. right. left. reflexivity.
  - reflexivity.
Defined.

(* ------------------------------------------------------------------ *)
(** ** More on the bookkeeping of the CLI *)

Section CliBookkeeping.

Lemma run_entries (tr : list Cli.Event) (c : Cli.Closure) :
  Cli.results (Cli.run c tr) = Cli.results c ++ Cli.entries tr.
Proof.
  revert c; induction tr as [|[s|w e|w s] tr IH]; intros c;
    [simpl; symmetry; apply app_nil_r|..];
    change (Cli.run c (?e :: tr)) with (Cli.run (Cli.step c e) tr);
    rewrite IH; simpl; [reflexivity|..];
    rewrite <- app_assoc; reflexivity.
Qed.

Lemma run_writers_keys (tr : list Cli.Event) (c : Cli.Closure) (x : string) :
  In x (JsMap.keys (Cli.writers (Cli.run c tr)))
  <-> In x (JsMap.keys (Cli.writers c)) /\ ~ In x (Cli.terminals tr).
Proof.
  revert c; induction tr as [|[s|w e|w s] tr IH]; intros c.
  - simpl. tauto.
  - change (Cli.run c (Cli.EvProgress s :: tr))
      with (Cli.run (Cli.onProgress c s) tr).
    rewrite IH. reflexivity.
  - change (Cli.run c (Cli.EvError w e :: tr))
      with (Cli.run (Cli.onError c w e) tr).
    rewrite IH. unfold Cli.onError, Cli.settle. cbn [Cli.writers].
    rewrite in_keys_delete. simpl. intuition congruence.
  - change (Cli.run c (Cli.EvFinish w s :: tr))
      with (Cli.run (Cli.onFinish c w s) tr).
    rewrite IH. unfold Cli.onFinish, Cli.settle. cbn [Cli.writers].
    rewrite in_keys_delete. simpl. intuition congruence.
Qed.

Lemma run_states_keys (tr : list Cli.Event) (c : Cli.Closure) (x : string) :
  In x (JsMap.keys (Cli.states (Cli.run c tr))) ->
  In x (JsMap.keys (Cli.states c)) \/ In x (Cli.progressDevices tr).
Proof.
  revert c; induction tr as [|[s|w e|w s] tr IH]; intros c H.
  - left. exact H.
  - change (Cli.run c (Cli.EvProgress s :: tr))
      with (Cli.run (Cli.onProgress c s) tr) in H.
    apply IH in H. simpl. destruct H as [H|H]; [|tauto].
    unfold Cli.onProgress in H. cbn [Cli.states] in H.
    apply in_keys_set in H. intuition.
  - change (Cli.run c (Cli.EvError w e :: tr))
      with (Cli.run (Cli.onError c w e) tr) in H.
    apply IH in H. simpl. destruct H as [H|H]; [|tauto].
    unfold Cli.onError, Cli.settle in H. cbn [Cli.states] in H.
    apply in_keys_delete in H. tauto.
  - change (Cli.run c (Cli.EvFinish w s :: tr))
      with (Cli.run (Cli.onFinish c w s) tr) in H.
    apply IH in H. simpl. destruct H as [H|H]; [|tauto].
    unfold Cli.onFinish, Cli.settle in H. cbn [Cli.states] in H.
    apply in_keys_delete in H. tauto.
Qed.

Lemma existsb_isError_entries (tr : list Cli.Event) :
  existsb Cli.isError (Cli.entries tr) = existsb Cli.isErrorEvent tr.
Proof.
  induction tr as [|[s|w e|w s] tr IH]; simpl; auto.
Qed.

Lemma report_lines (EXIT_CODES : ExitCodes.t) (results : list Cli.Result)
    (lines : list string) (code : Z) :
  fst (fold_left
         (fun (acc : list string * Z) result =>
            let (lines, exitCode) := acc in
            match result with
            | Cli.ResultError device error =>
                (lines ++ [("  - " ++ device ++ ": "
                            ++ JsError.message error)%string],
                 ExitCodes.GENERAL_ERROR EXIT_CODES)
            | Cli.ResultFlash device flash =>
                (lines ++ [("  - " ++ device ++ ": "
                            ++ Cli.crc32 (Cli.checksum flash))%string],
                 exitCode)
            end)
         results (lines, code))
  = lines ++ map Cli.line results.
Proof.
  revert lines code; induction results as [|[d e|d f] results IH];
    intros lines code; cbn [fold_left map Cli.line].
  - symmetry; apply app_nil_r.
  - rewrite IH, <- app_assoc. reflexivity.
  - rewrite IH, <- app_assoc. reflexivity.
Qed.

Lemma NoDup_keys_set (V : Type) (k : string) (v : V) (m : JsMap.t V) :
  NoDup (JsMap.keys m) -> NoDup (JsMap.keys (JsMap.set k v m)).
Proof.
  induction m as [|[k' v'] m IH]; simpl; intros H.
  - constructor; [intros []|constructor].
  - inversion H as [|? ? Hn Hd]; subst.
    destruct (String.eqb_spec k k') as [E|E]; simpl.
    + subst. constructor; assumption.
    + constructor; [|auto].
      intros Hin. apply in_keys_set in Hin. destruct Hin; [congruence|auto].
Qed.

(** Registering keys one after the other, each with the value made of it. *)
Lemma fold_set_registered (V : Type) (f : string -> V) (ks : list string)
    (m : JsMap.t V) :
  NoDup (JsMap.keys m) ->
  Forall (fun kv => snd kv = f (fst kv)) m ->
  let m' := fold_left (fun ws k => JsMap.set k (f k) ws) ks m in
  NoDup (JsMap.keys m') /\
  (forall x, In x (JsMap.keys m') <-> In x (JsMap.keys m) \/ In x ks) /\
  Forall (fun kv => snd kv = f (fst kv)) m'.
Proof.
  revert m; induction ks as [|k ks IH]; intros m Hd Hf; simpl.
  - repeat split; auto; tauto.
  - assert (Hf' : Forall (fun kv => snd kv = f (fst kv)) (JsMap.set k (f k) m)).
    { clear - Hf. induction m as [|[k' v'] m IHm]; simpl.
      - constructor; [reflexivity|constructor].
      - inversion Hf; subst. destruct (String.eqb k k').
        + constructor; [reflexivity|assumption].
        + constructor; [assumption|apply IHm; assumption]. }
    destruct (IH (JsMap.set k (f k) m) (@NoDup_keys_set V k (f k) m Hd) Hf')
      as (H1 & H2 & H3).
    split; [exact H1|]. split; [|exact H3].
    intros x. rewrite H2, in_keys_set. intuition.
Qed.

End CliBookkeeping.

(** X6.  The results hold exactly the terminal events served, in order of
    delivery, each under the path of the writer that emitted it and with its
    error or final state; progress events add nothing.  The active set loses
    exactly the devices of the terminal events served and never gains
    one. *)
Theorem X6_results_and_active_set_follow_the_terminal_events :
  forall (c : Cli.Closure) (tr : list Cli.Event),
    Cli.results (Cli.run c tr) = Cli.results c ++ Cli.entries tr /\
    (forall x : string,
       In x (JsMap.keys (Cli.writers (Cli.run c tr)))
       <-> In x (JsMap.keys (Cli.writers c)) /\ ~ In x (Cli.terminals tr)).
Proof.
  intros c tr. split; [apply run_entries|].
  intros x. apply run_writers_keys.
Qed.

(** X7.  From the events to the exit code: the code the continuation hands
    to [process.exit] for the results of a run is the general-error code if
    the results held an error before or one of the events was an [error],
    in whatever order the devices ended, and the success code otherwise. *)
Theorem X7_exit_code_follows_the_error_events :
  forall (EXIT_CODES : ExitCodes.t) (c : Cli.Closure) (tr : list Cli.Event),
    Cli.exitCode EXIT_CODES (Cli.Resolved (Cli.results (Cli.run c tr)))
    = if existsb Cli.isError (Cli.results c)
         || existsb Cli.isErrorEvent tr
      then ExitCodes.GENERAL_ERROR EXIT_CODES
      else ExitCodes.SUCCESS EXIT_CODES.
Proof.
  intros EXIT_CODES c tr.
  unfold Cli.exitCode, Cli.report. rewrite report_exitCode.
  rewrite run_entries, existsb_app, existsb_isError_entries. reflexivity.
Qed.

(** X8.  What the continuation prints: the header [Checksums:] and then one
    line per result, in the order of the results; after a run these are the
    lines of the results held before followed by one line per terminal
    event. *)
Theorem X8_one_line_per_result :
  forall (EXIT_CODES : ExitCodes.t) (c : Cli.Closure) (tr : list Cli.Event),
    fst (Cli.report EXIT_CODES (Cli.results (Cli.run c tr)))
    = "Checksums:" :: map Cli.line (Cli.results c)
      ++ map Cli.line (Cli.entries tr) /\
    length (fst (Cli.report EXIT_CODES (Cli.results (Cli.run c tr))))
    = S (length (Cli.results c) + length (Cli.terminals tr)).
Proof.
  intros EXIT_CODES c tr.
  assert (E : fst (Cli.report EXIT_CODES (Cli.results (Cli.run c tr)))
              = "Checksums:" :: map Cli.line (Cli.results c)
                ++ map Cli.line (Cli.entries tr)).
  { unfold Cli.report. rewrite report_lines, run_entries, map_app.
    reflexivity. }
  split; [exact E|].
  rewrite E. simpl. rewrite length_app, !length_map. f_equal. f_equal.
  clear. induction tr as [|[s|w e|w s] tr IH]; simpl; auto.
Qed.

(** X9.  What [answers.drive.forEach] leaves in [writers], for any list of
    drives, repeated ones included: every drive is a key and every key a
    drive, no key is held twice, and the writer filed under a key is the one
    built for that very path with the image and the options of the run. *)
Theorem X9_start_files_each_writer_under_its_path :
  forall (imagePath : string) (check unmount : bool) (drives : list string),
    let ws := Cli.writers (Cli.start imagePath check unmount drives) in
    NoDup (JsMap.keys ws) /\
    (forall x : string, In x (JsMap.keys ws) <-> In x drives) /\
    Forall (fun kv => snd kv = Cli.newWriter imagePath check unmount (fst kv)
                      /\ WriterOptions.path (ImageWriter.options (snd kv))
                         = fst kv) ws.
Proof.
  intros imagePath check unmount drives ws.
  destruct (@fold_set_registered _ (Cli.newWriter imagePath check unmount)
              drives (JsMap.empty ImageWriter.t))
    as (H1 & H2 & H3); [constructor|constructor|].
  subst ws. unfold Cli.start. cbn [Cli.writers].
  split; [exact H1|]. split.
  - intros x. rewrite H2. simpl. tauto.
  - revert H3. apply Forall_impl. intros [k w] E. simpl in *.
    subst w. split; reflexivity.
Qed.

(** X10.  A drive given more than once is flashed by a writer per
    occurrence but waited for once: for any non-empty list of drives,
    [resolve] is called once the distinct drives have each had one terminal
    event, with one entry per distinct drive; when a drive is repeated that
    is fewer entries than writers were started. *)
Theorem X10_repeated_drive_is_waited_for_once :
  forall (imagePath : string) (check unmount : bool)
         (drives : list string) (tr : list Cli.Event),
    drives <> [] ->
    NoDup (Cli.terminals tr) ->
    (forall d : string, In d (Cli.terminals tr) <-> In d drives) ->
    let c := Cli.run (Cli.start imagePath check unmount drives) tr in
    Cli.resolveCalls c = [Cli.results c] /\
    map Cli.device (Cli.results c) = Cli.terminals tr /\
    length (Cli.results c) <= length drives /\
    (~ NoDup drives -> length (Cli.results c) < length drives).
Proof.
  intros imagePath check unmount drives tr Hne Hts Hiff c.
  set (c0 := Cli.start imagePath check unmount drives) in *.
  destruct (@fold_set_registered _ (Cli.newWriter imagePath check unmount)
              drives (JsMap.empty ImageWriter.t))
    as (Hnd & Hkeys & _); [constructor|constructor|].
  change (fold_left _ drives (JsMap.empty ImageWriter.t))
    with (Cli.writers c0) in Hnd, Hkeys.
  assert (Hk : forall x, In x (JsMap.keys (Cli.writers c0)) <-> In x drives).
  { intros x. rewrite Hkeys. simpl. tauto. }
  assert (Hincl : incl (Cli.terminals tr) (JsMap.keys (Cli.writers c0))).
  { intros x Hx. apply Hk, Hiff, Hx. }
  assert (Hlen : length (Cli.terminals tr)
                 = length (JsMap.keys (Cli.writers c0))).
  { apply Permutation_length, NoDup_Permutation; auto.
    intros x. rewrite Hk. apply Hiff. }
  assert (Hres : length (Cli.results c) = length (Cli.terminals tr)).
  { rewrite <- (length_map Cli.device). subst c. rewrite run_results.
    reflexivity. }
  assert (Hle : length (JsMap.keys (Cli.writers c0)) <= length drives).
  { apply NoDup_incl_length; [exact Hnd|]. intros x Hx. apply Hk, Hx. }
  split; [|split; [|split]].
  - destruct (run_fan_in tr c0 Hnd Hts Hincl) as [_ H].
    assert (Hpos : 0 < length (JsMap.keys (Cli.writers c0))).
    { destruct drives as [|d ds]; [congruence|].
      assert (Hd : In d (JsMap.keys (Cli.writers c0)))
        by (apply Hk; left; reflexivity).
      destruct (JsMap.keys (Cli.writers c0)); [contradiction|simpl; lia]. }
    subst c. rewrite H. unfold completes.
    rewrite size_keys, Hlen, Nat.eqb_refl.
    destruct (Nat.eqb_spec (length (JsMap.keys (Cli.writers c0))) 0);
      [lia|reflexivity].
  - subst c. rewrite run_results. reflexivity.
  - lia.
  - intros Hdup.
    destruct (Nat.lt_ge_cases (length (Cli.results c)) (length drives))
      as [Hlt|Hge]; [exact Hlt|].
    exfalso. apply Hdup.
    apply (@NoDup_incl_NoDup _ (JsMap.keys (Cli.writers c0)) drives).
    + exact Hnd.
    + lia.
    + intros x Hx. apply Hk, Hx.
Qed.

Lemma X10_repeated_drive_is_waited_for_once_witness :
  let c := Cli.run (Scenario.cli [Scenario.devA; Scenario.devB; Scenario.devA])
             [Cli.EvFinish (Scenario.writer Scenario.devA)
                (Scenario.flashed "AAA");
              Cli.EvError (Scenario.writer Scenario.devB)
                Scenario.writeFailed] in
  Cli.resolveCalls c = [Cli.results c] /\ length (Cli.results c) < 3.
Proof.
  intros c.
  destruct (@X10_repeated_drive_is_waited_for_once "etcher.img" true true
              [Scenario.devA; Scenario.devB; Scenario.devA]
              [Cli.EvFinish (Scenario.writer Scenario.devA)
                 (Scenario.flashed "AAA");
               Cli.EvError (Scenario.writer Scenario.devB)
                 Scenario.writeFailed])
    as (H1 & _ & _ & H4).
  - discriminate.
  - repeat constructor; simpl; intuition discriminate.
  - intros d. simpl. tauto.
  - split; [exact H1|]. apply H4.
    intros H. inversion H as [|? ? Hn _]. apply Hn. simpl. tauto.
Defined.

(** X11.  Nothing is left behind: when the writers keep their ordering and
    every device that is active, or has a state in the map, or reports
    progress during the run, has a terminal event in the run, then after the
    run the active set and the map of latest states are both empty. *)
Theorem X11_nothing_left_when_all_devices_ended :
  forall (c : Cli.Closure) (tr : list Cli.Event),
    Cli.ordered [] tr = true ->
    incl (JsMap.keys (Cli.writers c)) (Cli.terminals tr) ->
    incl (JsMap.keys (Cli.states c)) (Cli.terminals tr) ->
    incl (Cli.progressDevices tr) (Cli.terminals tr) ->
    Cli.writers (Cli.run c tr) = [] /\ Cli.states (Cli.run c tr) = [].
Proof.
  intros c tr Hord Hw Hs Hp.
  assert (Hkeys : forall (V : Type) (m : JsMap.t V),
            (forall x, ~ In x (JsMap.keys m)) -> m = []).
  { intros V [|[k v] m] H; [reflexivity|].
    exfalso. apply (H k). left. reflexivity. }
  split; apply Hkeys; intros x Hx.
  - apply run_writers_keys in Hx. destruct Hx as [Hin Hnot].
    apply Hnot, Hw, Hin.
  - assert (Ht : In x (Cli.terminals tr)).
    { apply run_states_keys in Hx. destruct Hx as [Hx|Hx]; auto. }
    revert Hx. apply (@ordered_run_states tr [] c Hord); [|right; exact Ht].
    intros y [].
Qed.

Lemma X11_nothing_left_when_all_devices_ended_witness :
  let c := Cli.run (Scenario.cli [Scenario.devA; Scenario.devB])
             [Cli.EvProgress (Scenario.snapshot Scenario.devA "write" 10);
              Cli.EvProgress (Scenario.snapshot Scenario.devB "write" 20);
              Cli.EvError (Scenario.writer Scenario.devB) Scenario.writeFailed;
              Cli.EvProgress (Scenario.snapshot Scenario.devA "check" 80);
              Cli.EvFinish (Scenario.writer Scenario.devA)
                (Scenario.flashed "AAA")] in
  Cli.writers c = [] /\ Cli.states c = [].
Proof.
  intros c.
  apply X11_nothing_left_when_all_devices_ended.
  - reflexivity.
  - intros x Hx. simpl in *. tauto.
  - intros x Hx. simpl in *. tauto.
  - intros x Hx. simpl in *. tauto.
Defined.

(* ------------------------------------------------------------------ *)
(** ** More on the child writer *)

Section ChildWriterMore.
Variable EXIT_CODES : ExitCodes.t.

Lemma deliver_write_running (w : ChildWriter.Worker)
    (options : ChildWriter.WriteOptions) :
  ChildWriter.exited w = None ->
  ChildWriter.deliver EXIT_CODES w (ChildWriter.EvWrite options)
  = {| ChildWriter.exitCode := ExitCodes.SUCCESS EXIT_CODES;
       ChildWriter.writers :=
         fold_left
           (fun ws destination =>
              JsMap.set destination
                (ChildWriter.newWriter options destination) ws)
           (ChildWriter.destinations options) (JsMap.empty ImageWriter.t);
       ChildWriter.results := [];
       ChildWriter.emitted :=
         ChildWriter.emitted w ++ ChildWriter.writeLog options;
       ChildWriter.exited := None |}.
Proof.
  intros H. unfold ChildWriter.deliver. rewrite H.
  unfold ChildWriter.listener, ChildWriter.onWrite, ChildWriter.bind,
    ChildWriter.log, ChildWriter.emit, ChildWriter.modify,
    ChildWriter.writeLog, ChildWriter.boolString.
  cbn [ChildWriter.writers ChildWriter.results ChildWriter.emitted
       ChildWriter.exited ChildWriter.exitCode].
  rewrite H, <- !app_assoc. reflexivity.
Qed.

Lemma deliver_abort_running (w : ChildWriter.Worker) (e : ChildWriter.Event) :
  ChildWriter.exited w = None ->
  e = ChildWriter.EvIpcError \/ e = ChildWriter.EvDisconnect \/
  e = ChildWriter.EvSIGINT \/ e = ChildWriter.EvSIGTERM ->
  ChildWriter.deliver EXIT_CODES w e
  = {| ChildWriter.exitCode := ChildWriter.exitCode w;
       ChildWriter.writers := ChildWriter.writers w;
       ChildWriter.results := ChildWriter.results w;
       ChildWriter.emitted := ChildWriter.emitted w;
       ChildWriter.exited := Some (ExitCodes.SUCCESS EXIT_CODES) |}.
Proof.
  intros H [E|[E|[E|E]]]; subst e; unfold ChildWriter.deliver; rewrite H;
    cbn; rewrite H, orSuccess_SUCCESS; reflexivity.
Qed.

Lemma existsb_isDone_writeLog (options : ChildWriter.WriteOptions) :
  existsb ChildWriter.isDone (ChildWriter.writeLog options) = false.
Proof. reflexivity. Qed.

Lemma deliver_wellRun (w : ChildWriter.Worker) (e : ChildWriter.Event) :
  ChildWriter.wellRun (ExitCodes.SUCCESS EXIT_CODES) w ->
  ChildWriter.wellRun (ExitCodes.SUCCESS EXIT_CODES)
    (ChildWriter.deliver EXIT_CODES w e).
Proof.
  intros Hw. destruct (ChildWriter.exited w) as [c|] eqn:Hx.
  - rewrite deliver_exited by congruence. exact Hw.
  - unfold ChildWriter.wellRun in Hw. rewrite Hx in Hw.
    destruct Hw as [Hcode Hnone].
    destruct e as [o|s|err|r| | | |].
    + rewrite deliver_write_running by assumption.
      unfold ChildWriter.wellRun; cbn.
      rewrite existsb_app, Hnone. auto.
    + rewrite deliver_progress by assumption.
      unfold ChildWriter.wellRun; cbn.
      rewrite existsb_app, Hnone. auto.
    + rewrite deliver_error by assumption.
      unfold ChildWriter.wellRun; cbn.
      left. rewrite existsb_app, Hnone. reflexivity.
    + rewrite deliver_finish by assumption.
      unfold ChildWriter.wellRun.
      cbn [ChildWriter.exited ChildWriter.emitted ChildWriter.exitCode].
      destruct (JsMap.size _ =? 0) eqn:Es.
      * right. unfold ChildWriter.doneLast.
        cbn [ChildWriter.exited ChildWriter.emitted ChildWriter.results
             ChildWriter.writers].
        eexists. split; [reflexivity|].
        split; [rewrite existsb_app, Hnone; reflexivity|].
        split; [rewrite Hcode, orSuccess_SUCCESS; reflexivity|].
        apply Nat.eqb_eq in Es. unfold JsMap.size in Es.
        apply length_zero_iff_nil in Es. exact Es.
      * split; [exact Hcode|].
        rewrite !existsb_app, Hnone. reflexivity.
    + rewrite deliver_abort_running by auto.
      unfold ChildWriter.wellRun; cbn. left. exact Hnone.
    + rewrite deliver_abort_running by auto.
      unfold ChildWriter.wellRun; cbn. left. exact Hnone.
    + rewrite deliver_abort_running by auto.
      unfold ChildWriter.wellRun; cbn. left. exact Hnone.
    + rewrite deliver_abort_running by auto.
      unfold ChildWriter.wellRun; cbn. left. exact Hnone.
Qed.

Lemma run_wellRun (tr : list ChildWriter.Event) (w : ChildWriter.Worker) :
  ChildWriter.wellRun (ExitCodes.SUCCESS EXIT_CODES) w ->
  ChildWriter.wellRun (ExitCodes.SUCCESS EXIT_CODES)
    (ChildWriter.run EXIT_CODES w tr).
Proof.
  revert w; induction tr as [|e tr IH]; intros w H; [exact H|].
  simpl. apply IH, deliver_wellRun, H.
Qed.

(** Without an [error] event nothing faults. *)
Lemma run_without_errors (tr : list ChildWriter.Event)
    (w : ChildWriter.Worker) :
  forallb (fun e => negb (ChildWriter.isErrorEvent e)) tr = true ->
  ChildWriter.exitCode w = ExitCodes.SUCCESS EXIT_CODES ->
  ChildWriter.exited w = None
  \/ ChildWriter.exited w = Some (ExitCodes.SUCCESS EXIT_CODES) ->
  existsb ChildWriter.isErrorMsg (ChildWriter.emitted w) = false ->
  let w' := ChildWriter.run EXIT_CODES w tr in
  ChildWriter.exitCode w' = ExitCodes.SUCCESS EXIT_CODES /\
  (ChildWriter.exited w' = None
   \/ ChildWriter.exited w' = Some (ExitCodes.SUCCESS EXIT_CODES)) /\
  existsb ChildWriter.isErrorMsg (ChildWriter.emitted w') = false.
Proof.
  revert w; induction tr as [|e tr IH]; intros w Htr Hcode Hx Hmsg;
    [cbn; auto|].
  cbn [forallb] in Htr. apply andb_prop in Htr. destruct Htr as [He Htr].
  change (ChildWriter.run EXIT_CODES w (e :: tr))
    with (ChildWriter.run EXIT_CODES (ChildWriter.deliver EXIT_CODES w e) tr).
  destruct (ChildWriter.exited w) as [c|] eqn:Ex.
  - rewrite deliver_exited by congruence. apply IH; auto.
    rewrite Ex. exact Hx.
  - destruct e as [o|s|err|r| | | |]; try discriminate He.
    + rewrite deliver_write_running by assumption.
      apply IH; cbn; auto. rewrite existsb_app, Hmsg. reflexivity.
    + rewrite deliver_progress by assumption.
      apply IH; cbn; auto. rewrite existsb_app, Hmsg. reflexivity.
    + rewrite deliver_finish by assumption.
      apply IH; cbn [ChildWriter.exitCode ChildWriter.exited
                     ChildWriter.emitted]; auto.
      * destruct (JsMap.size _ =? 0); [right|left; reflexivity].
        rewrite Hcode, orSuccess_SUCCESS. reflexivity.
      * rewrite !existsb_app, Hmsg.
        destruct (JsMap.size _ =? 0); reflexivity.
    + rewrite deliver_abort_running by auto. apply IH; cbn; auto.
    + rewrite deliver_abort_running by auto. apply IH; cbn; auto.
    + rewrite deliver_abort_running by auto. apply IH; cbn; auto.
    + rewrite deliver_abort_running by auto. apply IH; cbn; auto.
Qed.

(** The bookkeeping of a worker that is still running after a run of
    [progress] and [finish] events. *)
Lemma run_quiet_running (tr : list ChildWriter.Event)
    (w : ChildWriter.Worker) :
  forallb ChildWriter.quiet tr = true ->
  ChildWriter.exited (ChildWriter.run EXIT_CODES w tr) = None ->
  let w' := ChildWriter.run EXIT_CODES w tr in
  ChildWriter.results w'
  = ChildWriter.results w ++ ChildWriter.finishResults tr /\
  (forall x : string,
     In x (JsMap.keys (ChildWriter.writers w'))
     <-> In x (JsMap.keys (ChildWriter.writers w))
         /\ ~ In x (ChildWriter.finishes tr)) /\
  ChildWriter.exitCode w' = ChildWriter.exitCode w.
Proof.
  revert w; induction tr as [|e tr IH]; intros w Hq Hrun.
  - cbn. rewrite app_nil_r. repeat split; tauto.
  - cbn [forallb] in Hq. apply andb_prop in Hq. destruct Hq as [He Hq].
    change (ChildWriter.run EXIT_CODES w (e :: tr))
      with (ChildWriter.run EXIT_CODES (ChildWriter.deliver EXIT_CODES w e) tr)
      in *.
    pose proof (running_before _ _ _ Hrun) as H1.
    pose proof (running_before EXIT_CODES [e] w H1) as H0.
    destruct (IH _ Hq Hrun) as (R1 & R2 & R3). cbv zeta.
    rewrite R1, R3.
    destruct e as [o|s|err|r| | | |]; try discriminate He.
    + rewrite deliver_progress in * by assumption. cbn.
      split; [reflexivity|]. split; [|reflexivity].
      intros x. rewrite R2. cbn. reflexivity.
    + rewrite deliver_finish in * by assumption.
      cbn [ChildWriter.results ChildWriter.writers ChildWriter.exitCode
           ChildWriter.finishResults ChildWriter.finishes].
      split; [rewrite <- app_assoc; reflexivity|]. split; [|reflexivity].
      intros x. rewrite R2.
      cbn [ChildWriter.writers]. rewrite in_keys_delete. simpl.
      intuition congruence.
Qed.

End ChildWriterMore.

(** X12.  Whatever the writers, the transport and the signals send after
    one [write] command, [done] goes out at most once: if it has gone out it
    is the last message of the run, it carries the results as they stand,
    no writer is left in the active set and the exit is scheduled with the
    success code. *)
Theorem X12_done_is_the_last_message :
  forall (EXIT_CODES : ExitCodes.t) (options : ChildWriter.WriteOptions)
         (tr : list ChildWriter.Event),
    forallb (fun e => negb (ChildWriter.isWrite e)) tr = true ->
    let w := ChildWriter.run EXIT_CODES (ChildWriter.connected EXIT_CODES)
               (ChildWriter.EvWrite options :: tr) in
    existsb ChildWriter.isDone (ChildWriter.emitted w) = true ->
    exists pre : list ChildWriter.Message,
      ChildWriter.emitted w = pre ++ [ChildWriter.Done (ChildWriter.results w)]
      /\ existsb ChildWriter.isDone pre = false
      /\ ChildWriter.exited w = Some (ExitCodes.SUCCESS EXIT_CODES)
      /\ ChildWriter.writers w = [].
Proof.
  intros EXIT_CODES options tr _ w Hdone.
  assert (H : ChildWriter.wellRun (ExitCodes.SUCCESS EXIT_CODES) w).
  { apply run_wellRun. unfold ChildWriter.wellRun; cbn. auto. }
  unfold ChildWriter.wellRun in H.
  destruct (ChildWriter.exited w) as [c|] eqn:Ex.
  - destruct H as [H|H]; [congruence|].
    destruct H as (pre & H1 & H2 & H3 & H4).
    rewrite Ex in H3. exists pre. auto.
  - destruct H as [_ H]. congruence.
Qed.

Lemma X12_done_is_the_last_message_witness :
  let w := Scenario.worker
             [ChildWriter.EvWrite (Scenario.write [Scenario.devA]);
              ChildWriter.EvProgress
                (Scenario.snapshot Scenario.devA "write" 50);
              ChildWriter.EvFinish (Scenario.result Scenario.devA "AAA");
              ChildWriter.EvFinish (Scenario.result Scenario.devA "AAA");
              ChildWriter.EvDisconnect] in
  ChildWriter.exited w = Some 0%Z /\ ChildWriter.writers w = [].
Proof.
  intros w.
  destruct (@X12_done_is_the_last_message ExitCodes.upstream
              (Scenario.write [Scenario.devA])
              [ChildWriter.EvProgress
                 (Scenario.snapshot Scenario.devA "write" 50);
               ChildWriter.EvFinish (Scenario.result Scenario.devA "AAA");
               ChildWriter.EvFinish (Scenario.result Scenario.devA "AAA");
               ChildWriter.EvDisconnect])
    as (pre & _ & _ & H3 & H4).
  - reflexivity.
  - reflexivity.
  - split; [exact H3|exact H4].
Defined.

(** X13.  Only a writer's [error] makes the worker fault: over a run
    without [error] events, the transport failing, a disconnect and the
    signals included, the worker sends no [error] message, [exitCode] stays
    the success code, and the worker either still runs or has scheduled its
    exit with the success code. *)
Theorem X13_without_error_events_the_exit_is_a_success :
  forall (EXIT_CODES : ExitCodes.t) (options : ChildWriter.WriteOptions)
         (tr : list ChildWriter.Event),
    forallb (fun e => negb (ChildWriter.isWrite e)) tr = true ->
    forallb (fun e => negb (ChildWriter.isErrorEvent e)) tr = true ->
    let w := ChildWriter.run EXIT_CODES (ChildWriter.connected EXIT_CODES)
               (ChildWriter.EvWrite options :: tr) in
    ChildWriter.exitCode w = ExitCodes.SUCCESS EXIT_CODES /\
    (ChildWriter.exited w = None
     \/ ChildWriter.exited w = Some (ExitCodes.SUCCESS EXIT_CODES)) /\
    existsb ChildWriter.isErrorMsg (ChildWriter.emitted w) = false.
Proof.
  intros EXIT_CODES options tr _ Herr w. subst w.
  apply run_without_errors; cbn; auto.
Qed.

Lemma X13_without_error_events_the_exit_is_a_success_witness :
  ChildWriter.exited
    (Scenario.worker
       [ChildWriter.EvWrite (Scenario.write [Scenario.devA; Scenario.devB]);
        ChildWriter.EvFinish (Scenario.result Scenario.devA "AAA");
        ChildWriter.EvSIGTERM;
        ChildWriter.EvFinish (Scenario.result Scenario.devB "BBB")])
  = None
  \/
  ChildWriter.exited
    (Scenario.worker
       [ChildWriter.EvWrite (Scenario.write [Scenario.devA; Scenario.devB]);
        ChildWriter.EvFinish (Scenario.result Scenario.devA "AAA");
        ChildWriter.EvSIGTERM;
        ChildWriter.EvFinish (Scenario.result Scenario.devB "BBB")])
  = Some 0%Z.
Proof.
  refine (proj1 (proj2
    (@X13_without_error_events_the_exit_is_a_success ExitCodes.upstream
       (Scenario.write [Scenario.devA; Scenario.devB])
       [ChildWriter.EvFinish (Scenario.result Scenario.devA "AAA");
        ChildWriter.EvSIGTERM;
        ChildWriter.EvFinish (Scenario.result Scenario.devB "BBB")] _ _)));
    reflexivity.
Defined.

(** X14.  The [write] listener of a running worker, for any list of
    destinations, repeated ones included: it logs its four lines and throws
    nothing, leaves the worker running with empty results and the success
    code in [exitCode], and files one writer under each destination, built
    for that path from the options of the command; no destination is held
    twice. *)
Theorem X14_write_files_each_writer_under_its_destination :
  forall (EXIT_CODES : ExitCodes.t) (w : ChildWriter.Worker)
         (options : ChildWriter.WriteOptions),
    ChildWriter.exited w = None ->
    let w' := ChildWriter.deliver EXIT_CODES w (ChildWriter.EvWrite options) in
    ChildWriter.exited w' = None /\
    ChildWriter.emitted w'
    = ChildWriter.emitted w ++ ChildWriter.writeLog options /\
    ChildWriter.results w' = [] /\
    ChildWriter.exitCode w' = ExitCodes.SUCCESS EXIT_CODES /\
    NoDup (JsMap.keys (ChildWriter.writers w')) /\
    (forall x : string,
       In x (JsMap.keys (ChildWriter.writers w'))
       <-> In x (ChildWriter.destinations options)) /\
    Forall (fun kv => snd kv = ChildWriter.newWriter options (fst kv))
      (ChildWriter.writers w').
Proof.
  intros EXIT_CODES w options Hx w'. subst w'.
  rewrite deliver_write_running by assumption.
  cbn [ChildWriter.exited ChildWriter.emitted ChildWriter.results
       ChildWriter.exitCode ChildWriter.writers].
  destruct (@fold_set_registered _ (ChildWriter.newWriter options)
              (ChildWriter.destinations options) (JsMap.empty ImageWriter.t))
    as (H1 & H2 & H3); [constructor|constructor|].
  repeat split; auto.
  - intros H. apply H2 in H. simpl in H. tauto.
  - intros H. apply H2. right. exact H.
Qed.

Lemma X14_write_files_each_writer_under_its_destination_witness :
  JsMap.keys
    (ChildWriter.writers
       (ChildWriter.deliver ExitCodes.upstream
          (ChildWriter.connected ExitCodes.upstream)
          (ChildWriter.EvWrite
             (Scenario.write [Scenario.devB; Scenario.devA; Scenario.devB]))))
  = [Scenario.devB; Scenario.devA] /\
  NoDup
    (JsMap.keys
       (ChildWriter.writers
          (ChildWriter.deliver ExitCodes.upstream
             (ChildWriter.connected ExitCodes.upstream)
             (ChildWriter.EvWrite
                (Scenario.write
                   [Scenario.devB; Scenario.devA; Scenario.devB]))))).
Proof.
  split; [reflexivity|].
  refine (proj1 (proj2 (proj2 (proj2 (proj2
    (@X14_write_files_each_writer_under_its_destination ExitCodes.upstream
       (ChildWriter.connected ExitCodes.upstream)
       (Scenario.write [Scenario.devB; Scenario.devA; Scenario.devB])
       _)))))).
  reflexivity.
Defined.

(** X15.  A [finish] whose device is not in the active set, unknown or
    already retired, is logged and recorded all the same and retires no
    writer; as long as a writer is left it sends no [done] and the worker
    keeps running. *)
Theorem X15_finish_of_an_inactive_device :
  forall (EXIT_CODES : ExitCodes.t) (w : ChildWriter.Worker)
         (result : ChildWriter.FlashResult),
    ChildWriter.exited w = None ->
    ~ In (ChildWriter.resultDevice result)
         (JsMap.keys (ChildWriter.writers w)) ->
    ChildWriter.writers w <> [] ->
    ChildWriter.deliver EXIT_CODES w (ChildWriter.EvFinish result)
    = {| ChildWriter.exitCode := ChildWriter.exitCode w;
         ChildWriter.writers := ChildWriter.writers w;
         ChildWriter.results := ChildWriter.results w ++ [result];
         ChildWriter.emitted :=
           ChildWriter.emitted w
           ++ [ChildWriter.Log
                 ("Finish: " ++ ChildWriter.resultDevice result)%string];
         ChildWriter.exited := None |}.
Proof.
  intros EXIT_CODES w result Hx Hd Hne.
  rewrite deliver_finish by assumption.
  change (ChildWriter.device (ChildWriter.drive result))
    with (ChildWriter.resultDevice result).
  rewrite (delete_absent _ _ Hd).
  destruct (ChildWriter.writers w) as [|kv ws] eqn:E; [congruence|].
  cbn. rewrite app_nil_r. reflexivity.
Qed.

Lemma X15_finish_of_an_inactive_device_witness :
  let w := Scenario.worker
             [ChildWriter.EvWrite
                (Scenario.write [Scenario.devA; Scenario.devB])] in
  JsMap.keys
    (ChildWriter.writers
       (ChildWriter.deliver ExitCodes.upstream w
          (ChildWriter.EvFinish (Scenario.result Scenario.devC "CCC"))))
  = [Scenario.devA; Scenario.devB].
Proof.
  intros w.
  rewrite (@X15_finish_of_an_inactive_device ExitCodes.upstream w
             (Scenario.result Scenario.devC "CCC")).
  - reflexivity.
  - reflexivity.
  - simpl. intros [E|[E|[]]]; discriminate E.
  - discriminate.
Defined.

(** X16.  While the worker runs, its books follow the events: after a run
    of [progress] and [finish] events that leaves it running, the results
    are the results held before followed by the result objects of the
    [finish] events in order of delivery, the active set has lost exactly
    the devices of those events, and [exitCode] is unchanged. *)
Theorem X16_books_of_a_running_worker :
  forall (EXIT_CODES : ExitCodes.t) (w : ChildWriter.Worker)
         (tr : list ChildWriter.Event),
    forallb ChildWriter.quiet tr = true ->
    ChildWriter.exited (ChildWriter.run EXIT_CODES w tr) = None ->
    let w' := ChildWriter.run EXIT_CODES w tr in
    ChildWriter.results w'
    = ChildWriter.results w ++ ChildWriter.finishResults tr /\
    (forall x : string,
       In x (JsMap.keys (ChildWriter.writers w'))
       <-> In x (JsMap.keys (ChildWriter.writers w))
           /\ ~ In x (ChildWriter.finishes tr)) /\
    ChildWriter.exitCode w' = ChildWriter.exitCode w.
Proof.
  intros EXIT_CODES w tr Hq Hrun. apply run_quiet_running; assumption.
Qed.

Lemma X16_books_of_a_running_worker_witness :
  let w := Scenario.worker
             [ChildWriter.EvWrite
                (Scenario.write [Scenario.devA; Scenario.devB])] in
  ChildWriter.results
    (ChildWriter.run ExitCodes.upstream w
       [ChildWriter.EvProgress (Scenario.snapshot Scenario.devA "write" 50);
        ChildWriter.EvFinish (Scenario.result Scenario.devA "AAA")])
  = ChildWriter.results w ++ [Scenario.result Scenario.devA "AAA"].
Proof.
  intros w.
  refine (proj1
    (@X16_books_of_a_running_worker ExitCodes.upstream w
       [ChildWriter.EvProgress (Scenario.snapshot Scenario.devA "write" 50);
        ChildWriter.EvFinish (Scenario.result Scenario.devA "AAA")] _ _));
    reflexivity.
Defined.

(* ------------------------------------------------------------------ *)
(** ** When the CLI resolves, for any sequence of events *)

Section CliResolution.

Lemma step_resolveCalls (c : Cli.Closure) (e : Cli.Event) :
  exists more : list (list Cli.Result),
    Cli.resolveCalls (Cli.step c e) = Cli.resolveCalls c ++ more /\
    (more <> [] -> Cli.writers (Cli.step c e) = []).
Proof.
  destruct e as [s|w err|w s]; cbn [Cli.step].
  - exists []. split; [symmetry; apply app_nil_r|congruence].
  - unfold Cli.onError, Cli.settle. cbn [Cli.resolveCalls Cli.writers].
    destruct (JsMap.size _ =? 0) eqn:E.
    + eexists. split; [reflexivity|]. intros _.
      apply Nat.eqb_eq, length_zero_iff_nil in E. exact E.
    + exists []. split; [symmetry; apply app_nil_r|congruence].
  - unfold Cli.onFinish, Cli.settle. cbn [Cli.resolveCalls Cli.writers].
    destruct (JsMap.size _ =? 0) eqn:E.
    + eexists. split; [reflexivity|]. intros _.
      apply Nat.eqb_eq, length_zero_iff_nil in E. exact E.
    + exists []. split; [symmetry; apply app_nil_r|congruence].
Qed.

(** Once empty, the active set stays empty. *)
Lemma run_writers_nil (tr : list Cli.Event) (c : Cli.Closure) :
  Cli.writers c = [] -> Cli.writers (Cli.run c tr) = [].
Proof.
  revert c; induction tr as [|[s|w err|w s] tr IH]; intros c H;
    [exact H|..];
    change (Cli.run c (?e :: tr)) with (Cli.run (Cli.step c e) tr);
    apply IH; cbn; rewrite H; reflexivity.
Qed.

(** No resolution while a writer is active. *)
Lemma run_resolved_nil (tr : list Cli.Event) (c : Cli.Closure) :
  (Cli.resolveCalls c <> [] -> Cli.writers c = []) ->
  Cli.resolveCalls (Cli.run c tr) <> [] ->
  Cli.writers (Cli.run c tr) = [].
Proof.
  revert c; induction tr as [|e tr IH]; intros c Hc; [exact Hc|].
  change (Cli.run c (e :: tr)) with (Cli.run (Cli.step c e) tr).
  apply IH. intros Hne.
  destruct (step_resolveCalls c e) as (more & Hmore & Hnil).
  destruct more as [|m more].
  - rewrite app_nil_r in Hmore. rewrite Hmore in Hne.
    pose proof (run_writers_nil [e] c (Hc Hne)) as H. exact H.
  - apply Hnil. discriminate.
Qed.

Lemma run_resolved_stays (tr : list Cli.Event) (c : Cli.Closure) :
  Cli.resolveCalls c <> [] -> Cli.resolveCalls (Cli.run c tr) <> [].
Proof.
  revert c; induction tr as [|e tr IH]; intros c H; [exact H|].
  change (Cli.run c (e :: tr)) with (Cli.run (Cli.step c e) tr).
  apply IH. destruct (step_resolveCalls c e) as (more & Hmore & _).
  rewrite Hmore. destruct (Cli.resolveCalls c); [congruence|discriminate].
Qed.

(** Resolution at the latest when every active device has ended. *)
Lemma run_all_ended_resolved (tr : list Cli.Event) (c : Cli.Closure) :
  Cli.writers c <> [] ->
  incl (JsMap.keys (Cli.writers c)) (Cli.terminals tr) ->
  Cli.resolveCalls (Cli.run c tr) <> [].
Proof.
  revert c; induction tr as [|e tr IH]; intros c Hne Hincl.
  - exfalso. destruct (Cli.writers c) as [|[k v] ws]; [congruence|].
    apply (Hincl k). left. reflexivity.
  - change (Cli.run c (e :: tr)) with (Cli.run (Cli.step c e) tr).
    assert (Hterm : forall (d : string) (rs : list Cli.Result),
              incl (JsMap.keys (Cli.writers c)) (d :: Cli.terminals tr) ->
              Cli.resolveCalls (Cli.run (Cli.settle c rs d) tr) <> []).
    { intros d rs Hd.
      destruct (JsMap.delete d (Cli.writers c)) as [|kv ws] eqn:E.
      - apply run_resolved_stays. unfold Cli.settle.
        cbn [Cli.resolveCalls]. rewrite E. cbn.
        destruct (Cli.resolveCalls c); discriminate.
      - apply IH.
        + unfold Cli.settle. cbn [Cli.writers]. rewrite E. discriminate.
        + unfold Cli.settle. cbn [Cli.writers]. intros x Hx.
          apply in_keys_delete in Hx. destruct Hx as [Hxd Hx].
          destruct (Hd x Hx) as [E'|H']; [congruence|exact H']. }
    destruct e as [s|w err|w s].
    + apply IH; assumption.
    + apply Hterm. exact Hincl.
    + apply Hterm. exact Hincl.
Qed.

End CliResolution.

(** X17.  When the CLI resolves, for any sequence of events, whether or not
    the writers keep to one terminal event each: starting with an
    unresolved promise and at least one active writer, [resolve] has been
    called after a run exactly when every device of the active set has had
    a terminal event in the run; and then the active set is empty. *)
Theorem X17_resolved_exactly_when_every_active_device_ended :
  forall (c : Cli.Closure) (tr : list Cli.Event),
    Cli.resolveCalls c = [] ->
    Cli.writers c <> [] ->
    (Cli.resolveCalls (Cli.run c tr) <> []
     <-> incl (JsMap.keys (Cli.writers c)) (Cli.terminals tr)) /\
    (Cli.resolveCalls (Cli.run c tr) <> [] -> Cli.writers (Cli.run c tr) = []).
Proof.
  intros c tr Hres Hne.
  assert (Hnil : Cli.resolveCalls (Cli.run c tr) <> [] ->
                 Cli.writers (Cli.run c tr) = []).
  { apply run_resolved_nil. congruence. }
  split; [|exact Hnil]. split.
  - intros H x Hx.
    destruct (in_dec string_dec x (Cli.terminals tr)) as [Hin|Hnot];
      [exact Hin|].
    exfalso.
    assert (Hk : In x (JsMap.keys (Cli.writers (Cli.run c tr))))
      by (apply run_writers_keys; auto).
    rewrite (Hnil H) in Hk. exact Hk.
  - apply run_all_ended_resolved. exact Hne.
Qed.

Lemma X17_resolved_exactly_when_every_active_device_ended_witness :
  let c := Cli.run (Scenario.cli [Scenario.devA; Scenario.devB])
             [Cli.EvFinish (Scenario.writer Scenario.devA)
                (Scenario.flashed "AAA");
              Cli.EvFinish (Scenario.writer Scenario.devA)
                (Scenario.flashed "AAA");
              Cli.EvError (Scenario.writer Scenario.devB)
                Scenario.writeFailed] in
  Cli.resolveCalls c <> [].
Proof.
  intros c.
  apply (proj1 (@X17_resolved_exactly_when_every_active_device_ended
                  (Scenario.cli [Scenario.devA; Scenario.devB])
                  [Cli.EvFinish (Scenario.writer Scenario.devA)
                     (Scenario.flashed "AAA");
                   Cli.EvFinish (Scenario.writer Scenario.devA)
                     (Scenario.flashed "AAA");
                   Cli.EvError (Scenario.writer Scenario.devB)
                     Scenario.writeFailed]
                  eq_refl ltac:(discriminate))).
  intros x Hx. simpl in *. tauto.
Defined.
